(** * llm-chat-app: the SSE event framer and the stream coordinator of
      [public/chat.js], embedded in Rocq.

    JavaScript strings are sequences of UTF-16 code units; they are modelled
    as lists of code units ([N]), of any length.  String literals of the
    development are written as Rocq strings and converted with [js]. *)

From Stdlib Require Import String Ascii.
From Stdlib Require Import List NArith Arith Lia Bool.
From Equations Require Import Equations.
Import ListNotations.

(** ** Strings *)

Module Js.

Definition code_unit := N.
Definition jstring := list code_unit.

Definition js (s : string) : jstring :=
  map N_of_ascii (list_ascii_of_string s).

(** JSON texts are written with an apostrophe where the text has a double
    quote: [jsq "{'response':'Hi'}"] is the text [{"response":"Hi"}]. *)
Definition jsq (s : string) : jstring :=
  map (fun c => if N.eqb c 39 then 34%N else c) (js s).

Definition LF : code_unit := 10%N.
Definition CR : code_unit := 13%N.

Definition jstring_eqb (a b : jstring) : bool :=
  if list_eq_dec N.eq_dec a b then true else false.

(** [s.startsWith(p)] *)
Fixpoint startsWith (s p : jstring) : bool :=
  match p, s with
  | [], _ => true
  | _ :: _, [] => false
  | c :: p', d :: s' => N.eqb c d && startsWith s' p'
  end.

(** [s.indexOf(p)], searching from position 0; [None] stands for -1. *)
Fixpoint indexOf (s p : jstring) : option nat :=
  if startsWith s p then Some 0
  else match s with
       | [] => None
       | _ :: s' => option_map S (indexOf s' p)
       end.

(** [s.slice(0, i)] and [s.slice(i)] for [0 <= i]. *)
Definition slice_to (s : jstring) (i : nat) : jstring := firstn i s.
Definition slice_from (s : jstring) (i : nat) : jstring := skipn i s.

(** [s.split("\n")]: always at least one piece. *)
Fixpoint split_lines (s : jstring) : list jstring :=
  match s with
  | [] => [[]]
  | c :: s' =>
      if N.eqb c LF then [] :: split_lines s'
      else match split_lines s' with
           | [] => [[c]]
           | l :: ls => (c :: l) :: ls
           end
  end.

(** [a.join("\n")] *)
Fixpoint join_lines (a : list jstring) : jstring :=
  match a with
  | [] => []
  | [l] => l
  | l :: ls => l ++ LF :: join_lines ls
  end.

(** ECMAScript WhiteSpace and LineTerminator code points, the set that
    [trimStart] removes. All of them lie in the Basic Multilingual Plane, so
    the test is per code unit. *)
Definition is_white_space (c : code_unit) : bool :=
  (N.leb 9 c && N.leb c 13) ||
  N.eqb c 32 || N.eqb c 160 || N.eqb c 5760 ||
  (N.leb 8192 c && N.leb c 8202) ||
  N.eqb c 8232 || N.eqb c 8233 || N.eqb c 8239 || N.eqb c 8287 ||
  N.eqb c 12288 || N.eqb c 65279.

(** [s.trimStart()] *)
Fixpoint trimStart (s : jstring) : jstring :=
  match s with
  | [] => []
  | c :: s' => if is_white_space c then trimStart s' else s
  end.

(** [s.trimEnd()] and [s.trim()] *)
Definition trimEnd (s : jstring) : jstring := rev (trimStart (rev s)).
Definition trim (s : jstring) : jstring := trimEnd (trimStart s).

(** [s.replace(/c/g, r)] for a single-character pattern. *)
Definition replace_all (c : code_unit) (r : jstring) (s : jstring) : jstring :=
  flat_map (fun d => if N.eqb d c then r else [d]) s.

End Js.
Import Js.

(** ** The event framer: [consumeSseEvents] *)

Module Framer.

Definition data_prefix : jstring := js "data:".
Definition blank_line : jstring := [LF; LF].

(** One pass of [for (const line of lines)]: the payload pushed for a line. *)
Definition line_payload (line : jstring) : jstring :=
  trimStart (slice_from line (length data_prefix)).

Definition is_data_line (line : jstring) : bool := startsWith line data_prefix.

Definition dataLines (rawEvent : jstring) : list jstring :=
  map line_payload (filter is_data_line (split_lines rawEvent)).

(** What one raw block adds to [events]. *)
Definition block_events (rawEvent : jstring) : list jstring :=
  match dataLines rawEvent with
  | [] => []
  | ds => [join_lines ds]
  end.

Record framed := { events : list jstring; buffer : jstring }.

Definition inspect {A : Type} (a : A) : {b : A | a = b} := exist _ a eq_refl.

(** The [while] loop of [consumeSseEvents], on the normalized text. *)
Equations? frame_loop (normalized : jstring) : framed
  by wf (length normalized) lt :=
  frame_loop normalized with inspect (indexOf normalized blank_line) := {
    | exist _ None _ := {| events := []; buffer := normalized |}
    | exist _ (Some eventEndIndex) Hidx :=
        let rawEvent := slice_to normalized eventEndIndex in
        let rest := frame_loop (slice_from normalized (eventEndIndex + 2)) in
        {| events := block_events rawEvent ++ events rest;
           buffer := buffer rest |} }.
Proof.
  assert (Hsw : forall p s, startsWith s p = true -> length p <= length s).
  { clear. induction p as [|c p IH]; intros [|d s]; cbn [startsWith length];
      intros H; try lia; try discriminate.
    apply andb_prop in H as [_ H]. apply IH in H. lia. }
  assert (Hb : forall s i, indexOf s blank_line = Some i -> i + 2 <= length s).
  { clear - Hsw. induction s as [|c s IH]; intros i; cbn [indexOf];
      destruct (startsWith _ blank_line) eqn:E.
    - apply Hsw in E. cbn in E. lia.
    - discriminate.
    - intros [= <-]. apply Hsw in E. cbn [length] in *. cbn in E. lia.
    - destruct (indexOf s blank_line) as [j|]; cbn; [|discriminate].
      intros [= <-]. specialize (IH j eq_refl). lia. }
  apply Hb in Hidx. unfold slice_from. rewrite length_skipn. lia.
Qed.

Definition strip_cr (buffer : jstring) : jstring := replace_all CR [] buffer.

Definition consumeSseEvents (buffer : jstring) : framed :=
  frame_loop (strip_cr buffer).

(** Texts without a carriage return, as normalization leaves them, and
    texts that are one line of a normalized block. *)
Definition no_cr (s : jstring) : Prop := Forall (fun c => c <> CR) s.

Definition single_line (line : jstring) : Prop :=
  Forall (fun c => c <> LF /\ c <> CR) line.

(** [s] without its last character when that is a newline: the raw block
    that the loop cuts from a text ending in a blank line. *)
Fixpoint chomp (s : jstring) : jstring :=
  match s with
  | [] => []
  | [c] => if N.eqb c LF then [] else [c]
  | c :: s' => c :: chomp s'
  end.

(** How a caller threads the remainder through successive calls: each chunk
    is appended to the remainder of the call before. The result is the
    events of all calls, in order, and the last remainder. *)
Fixpoint feed_chunks (buffer : jstring) (chunks : list jstring)
  : list jstring * jstring :=
  match chunks with
  | [] => ([], buffer)
  | chunk :: later =>
      let parsed := consumeSseEvents (buffer ++ chunk) in
      let (evs, final) := feed_chunks (Framer.buffer parsed) later in
      (events parsed ++ evs, final)
  end.

End Framer.
Import Framer.

(** ** JSON payloads

    [JSON.parse] and the property reads of [appendChunkFromSseData] belong to
    the JavaScript platform. They are modelled here after ECMA-262: the JSON
    grammar, and the values a parsed text can denote. *)

Module Json.

(** The values reachable from [JSON.parse], and [undefined] for absent
    properties. A number keeps its literal: its IEEE-754 value is not
    computed here (see [NumberSemantics]). An object lists its properties in
    text order; a later duplicate key overrides an earlier one. *)
#[warnings="-register-all"]
Inductive value : Type :=
| VUndefined
| VNull
| VBool (b : bool)
| VNum (literal : jstring)
| VStr (s : jstring)
| VArr (elements : list value)
| VObj (properties : list (jstring * value)).

Notation "x <- e ;; k" := (match e with Some x => k | None => None end)
  (at level 61, e at next level, right associativity).
Notation "' p <- e ;; k" := (match e with Some p => k | None => None end)
  (at level 61, p pattern, e at next level, right associativity).

Definition is_json_ws (c : code_unit) : bool :=
  N.eqb c 32 || N.eqb c 9 || N.eqb c 10 || N.eqb c 13.

Fixpoint skip_ws (s : jstring) : jstring :=
  match s with
  | [] => []
  | c :: s' => if is_json_ws c then skip_ws s' else s
  end.

Definition is_digit (c : code_unit) : bool := N.leb 48 c && N.leb c 57.

Fixpoint take_digits (s : jstring) : jstring * jstring :=
  match s with
  | [] => ([], [])
  | c :: s' =>
      if is_digit c then let (ds, r) := take_digits s' in (c :: ds, r)
      else ([], s)
  end.

(** A number literal (optional minus, integer part without a leading zero,
    optional fraction, optional exponent) and the text after it. *)
Definition parse_number (s : jstring) : option (jstring * jstring) :=
  let (sign, s1) :=
    match s with
    | c :: t => if N.eqb c 45 then ([c], t) else ([], s)
    | [] => ([], s)
    end in
  '(int, s2) <-
    match s1 with
    | c :: t =>
        if N.eqb c 48 then Some ([c], t)
        else if is_digit c then let (ds, r) := take_digits t in Some (c :: ds, r)
        else None
    | [] => None
    end ;;
  '(frac, s3) <-
    match s2 with
    | c :: t =>
        if N.eqb c 46 then
          let (ds, r) := take_digits t in
          match ds with [] => None | _ => Some (c :: ds, r) end
        else Some ([], s2)
    | [] => Some ([], s2)
    end ;;
  '(ex, s4) <-
    match s3 with
    | c :: t =>
        if N.eqb c 101 || N.eqb c 69 then
          let (sg, t') :=
            match t with
            | d :: u => if N.eqb d 43 || N.eqb d 45 then ([d], u) else ([], t)
            | [] => ([], t)
            end in
          let (ds, r) := take_digits t' in
          match ds with [] => None | _ => Some (c :: sg ++ ds, r) end
        else Some ([], s3)
    | [] => Some ([], s3)
    end ;;
  Some (sign ++ int ++ frac ++ ex, s4).

Definition hex_value (c : code_unit) : option N :=
  if N.leb 48 c && N.leb c 57 then Some (c - 48)%N
  else if N.leb 97 c && N.leb c 102 then Some (c - 87)%N
  else if N.leb 65 c && N.leb c 70 then Some (c - 55)%N
  else None.

(** The character that the letter after a backslash stands for (quote,
    backslash, slash, b, f, n, r, t). *)
Definition unescape (c : code_unit) : option code_unit :=
  if N.eqb c 34 then Some 34%N
  else if N.eqb c 92 then Some 92%N
  else if N.eqb c 47 then Some 47%N
  else if N.eqb c 98 then Some 8%N
  else if N.eqb c 102 then Some 12%N
  else if N.eqb c 110 then Some 10%N
  else if N.eqb c 114 then Some 13%N
  else if N.eqb c 116 then Some 9%N
  else None.

(** A string after its opening quote: its code units and the text after the
    closing quote. *)
Fixpoint parse_string_body (s : jstring) : option (jstring * jstring) :=
  match s with
  | [] => None
  | c :: t =>
      if N.eqb c 34 then Some ([], t)
      else if N.eqb c 92 then
        match t with
        | [] => None
        | e :: u =>
            if N.eqb e 117 then
              match u with
              | h1 :: h2 :: h3 :: h4 :: w =>
                  a <- hex_value h1 ;; b <- hex_value h2 ;;
                  c <- hex_value h3 ;; d <- hex_value h4 ;;
                  '(str, r) <- parse_string_body w ;;
                  Some ((((a * 16 + b) * 16 + c) * 16 + d)%N :: str, r)
              | _ => None
              end
            else
              x <- unescape e ;;
              '(str, r) <- parse_string_body u ;;
              Some (x :: str, r)
        end
      else if N.ltb c 32 then None
      else
        '(str, r) <- parse_string_body t ;;
        Some (c :: str, r)
  end.

(** Recursive descent over the JSON grammar. [fuel] bounds the nesting of
    calls; two nested calls always consume a character between them. *)
Fixpoint parse_value (fuel : nat) (s : jstring) : option (value * jstring) :=
  match fuel with
  | 0 => None
  | S fuel =>
      match skip_ws s with
      | [] => None
      | c :: t =>
          if N.eqb c 34 then
            '(str, r) <- parse_string_body t ;; Some (VStr str, r)
          else if N.eqb c 123 then
            match skip_ws t with
            | d :: r =>
                if N.eqb d 125 then Some (VObj [], r)
                else '(ps, r') <- parse_members fuel t ;; Some (VObj ps, r')
            | [] => None
            end
          else if N.eqb c 91 then
            match skip_ws t with
            | d :: r =>
                if N.eqb d 93 then Some (VArr [], r)
                else '(vs, r') <- parse_elements fuel t ;; Some (VArr vs, r')
            | [] => None
            end
          else if startsWith (c :: t) (js "true") then
            Some (VBool true, slice_from (c :: t) 4)
          else if startsWith (c :: t) (js "false") then
            Some (VBool false, slice_from (c :: t) 5)
          else if startsWith (c :: t) (js "null") then
            Some (VNull, slice_from (c :: t) 4)
          else
            '(lit, r) <- parse_number (c :: t) ;; Some (VNum lit, r)
      end
  end
with parse_elements (fuel : nat) (s : jstring) : option (list value * jstring) :=
  match fuel with
  | 0 => None
  | S fuel =>
      '(v, r) <- parse_value fuel s ;;
      match skip_ws r with
      | d :: r' =>
          if N.eqb d 44 then
            '(vs, r'') <- parse_elements fuel r' ;; Some (v :: vs, r'')
          else if N.eqb d 93 then Some ([v], r')
          else None
      | [] => None
      end
  end
with parse_members (fuel : nat) (s : jstring)
  : option (list (jstring * value) * jstring) :=
  match fuel with
  | 0 => None
  | S fuel =>
      match skip_ws s with
      | q :: t =>
          if N.eqb q 34 then
            '(key, r) <- parse_string_body t ;;
            match skip_ws r with
            | colon :: r1 =>
                if N.eqb colon 58 then
                  '(v, r2) <- parse_value fuel r1 ;;
                  match skip_ws r2 with
                  | d :: r3 =>
                      if N.eqb d 44 then
                        '(ps, r4) <- parse_members fuel r3 ;;
                        Some ((key, v) :: ps, r4)
                      else if N.eqb d 125 then Some ([(key, v)], r3)
                      else None
                  | [] => None
                  end
                else None
            | [] => None
            end
          else None
      | [] => None
      end
  end.

(** [JSON.parse(text)]; [None] stands for the [SyntaxError] it throws. *)
Definition JSON_parse (text : jstring) : option value :=
  '(v, rest) <- parse_value (2 * length text + 2) text ;;
  match skip_ws rest with
  | [] => Some v
  | _ :: _ => None
  end.

(** What the engine decides and the embedding does not compute. The
    IEEE-754 reading of a number literal is not embedded: the two facts
    about a number that the code can observe are taken from the platform.
    [number_truthy] says whether the literal denotes a value other than
    zero; [number_to_string] is [Number::toString] of that value.
    [conversion_depth] is the engine's limit on the string conversion of
    arrays: the conversion of an array recurses into the arrays it holds,
    and an engine throws a [RangeError] once the nesting exhausts its stack;
    arrays nested at most [conversion_depth] deep are converted. *)
Class NumberSemantics := {
  number_truthy : jstring -> bool;
  number_to_string : jstring -> jstring;
  conversion_depth : nat
}.

(** The digits of a literal before its exponent. *)
Fixpoint mantissa (lit : jstring) : jstring :=
  match lit with
  | [] => []
  | c :: s' => if N.eqb c 101 || N.eqb c 69 then [] else c :: mantissa s'
  end.

(** A reading of number literals to run examples with: a literal is zero
    when its digits before the exponent are all zeros, and prints as it is
    written. It agrees with IEEE doubles on literals such as [0], [7] or
    [1.5]. Arrays are converted down to 512 levels of nesting. The theorems
    hold for every reading and every limit. *)
Definition literal_numbers : NumberSemantics :=
  {| number_truthy lit :=
       existsb (fun c => is_digit c && negb (N.eqb c 48)) (mantissa lit);
     number_to_string lit := lit;
     conversion_depth := 512 |}.

(** The value of an own property; the last binding of a duplicated key. *)
Definition own_property (props : list (jstring * value)) (key : jstring)
  : option value :=
  option_map snd (find (fun kv => jstring_eqb (fst kv) key) (rev props)).

Fixpoint decimal (acc : N) (s : jstring) : N :=
  match s with
  | [] => acc
  | c :: s' => decimal (acc * 10 + (c - 48))%N s'
  end.

(** The index that a canonical numeric property key denotes. *)
Definition array_index (key : jstring) : option nat :=
  match key with
  | [] => None
  | [c] => if is_digit c then Some (N.to_nat (c - 48)) else None
  | c :: _ =>
      if forallb is_digit key && negb (N.eqb c 48)
      then Some (N.to_nat (decimal 0 key)) else None
  end.

(** [v[key]] and [v.key]; [None] stands for the [TypeError] of reading a
    property of [null] or [undefined]. Only properties that a parsed text
    gives a value are looked up: those inherited from the built-in
    prototypes ([length], [toString], ...) are not among the keys the
    program reads. *)
Definition Get (v : value) (key : jstring) : option value :=
  match v with
  | VUndefined | VNull => None
  | VBool _ | VNum _ => Some VUndefined
  | VStr s =>
      Some match array_index key with
           | Some i => match nth_error s i with
                       | Some c => VStr [c]
                       | None => VUndefined
                       end
           | None => VUndefined
           end
  | VArr elements =>
      Some match array_index key with
           | Some i => nth i elements VUndefined
           | None => VUndefined
           end
  | VObj props =>
      Some match own_property props key with
           | Some x => x
           | None => VUndefined
           end
  end.

(** [v?.[key]] and [v?.key] *)
Definition OptionalGet (v : value) (key : jstring) : value :=
  match Get v key with
  | Some x => x
  | None => VUndefined
  end.

Definition typeof_string (v : value) : bool :=
  match v with VStr _ => true | _ => false end.

(** [ToBoolean] *)
Definition truthy `{NumberSemantics} (v : value) : bool :=
  match v with
  | VUndefined | VNull => false
  | VBool b => b
  | VNum n => number_truthy n
  | VStr s => negb (jstring_eqb s [])
  | VArr _ | VObj _ => true
  end.

Fixpoint join_with (sep : jstring) (a : list jstring) : jstring :=
  match a with
  | [] => []
  | [x] => x
  | x :: xs => x ++ sep ++ join_with sep xs
  end.

Fixpoint sequence (l : list (option jstring)) : option (list jstring) :=
  match l with
  | [] => Some []
  | x :: l' => y <- x ;; ys <- sequence l' ;; Some (y :: ys)
  end.

(** The string that [text + v] appends: [ToString(ToPrimitive(v))], with
    [None] for a conversion that throws. An array joins the conversions of
    its elements with commas, and throws a [RangeError] when arrays are
    nested deeper than [depth]; a plain object prints as [[object Object]]
    unless an own non-callable [toString] shadows the inherited one, and
    then the conversion throws a [TypeError]. *)
Fixpoint ToString_within `{NumberSemantics} (depth : nat) (v : value)
  {struct v} : option jstring :=
  match v with
  | VUndefined => Some (js "undefined")
  | VNull => Some (js "null")
  | VBool true => Some (js "true")
  | VBool false => Some (js "false")
  | VNum n => Some (number_to_string n)
  | VStr s => Some s
  | VArr elements =>
      match depth with
      | 0 => None
      | S depth' =>
          parts <- sequence
                     (map (fun e => match e with
                                    | VUndefined | VNull => Some []
                                    | _ => ToString_within depth' e
                                    end) elements) ;;
          Some (join_with (js ",") parts)
      end
  | VObj props =>
      match own_property props (js "toString") with
      | Some _ => None
      | None => Some (js "[object Object]")
      end
  end.

Definition ToString `{NumberSemantics} (v : value) : option jstring :=
  ToString_within conversion_depth v.

End Json.
Import Json.

(** ** Escaping and the chat pane *)

Module Dom.

(** [escapeHtml]: five global replacements, in the order of the source. *)
Definition escapeHtml (str : jstring) : jstring :=
  replace_all 39%N (js "&#039;")
    (replace_all 34%N (js "&quot;")
      (replace_all 62%N (js "&gt;")
        (replace_all 60%N (js "&lt;")
          (replace_all 38%N (js "&amp;") str)))).

(** The five characters and their entities, as a table: what the claim
    about [escapeHtml] says of a single character. *)
Definition entity_of (c : code_unit) : jstring :=
  if N.eqb c 38 then js "&amp;"
  else if N.eqb c 60 then js "&lt;"
  else if N.eqb c 62 then js "&gt;"
  else if N.eqb c 34 then js "&quot;"
  else if N.eqb c 39 then js "&#039;"
  else [c].

(** What follows the ampersand in each entity. *)
Definition entity_tails : list jstring :=
  [js "amp;"; js "lt;"; js "gt;"; js "quot;"; js "#039;"].

Definition is_markup_char (c : code_unit) : bool :=
  N.eqb c 60 || N.eqb c 62 || N.eqb c 34 || N.eqb c 39.

Inductive role := user | assistant.

Definition role_name (r : role) : jstring :=
  match r with user => js "user" | assistant => js "assistant" end.

(** The children of [#chat-messages]: a message built by [addMessageToChat]
    from markup, or the streaming reply element with its agent badge, whose
    text is set through [textContent]. *)
Inductive element :=
| MarkupMessage (className innerHTML : jstring)
| StreamingMessage (badge textContent : jstring).

Definition addMessageToChat (r : role) (content : jstring)
  (chatMessages : list element) : list element :=
  chatMessages ++
  [MarkupMessage (js "message " ++ role_name r ++ js "-message")
                 (js "<p>" ++ escapeHtml content ++ js "</p>")].

End Dom.
Import Dom.

(** ** The stream coordinator: [sendMessage] *)

Module Coordinator.

Section WithNumbers.
Context `{NumberSemantics}.

Definition DONE : jstring := js "[DONE]".

(** [typeof v === "string" && v.length > 0] *)
Definition nonempty_string (v : value) : bool :=
  typeof_string v &&
  match v with VStr s => negb (Nat.eqb (length s) 0) | _ => false end.

(** [jsonData.choices?.[0]?.delta?.content] *)
Definition nested_content (jsonData : value) : value :=
  OptionalGet (OptionalGet (OptionalGet
    (OptionalGet jsonData (js "choices")) (js "0")) (js "delta")) (js "content").

(** [appendChunkFromSseData]: the [try] body in the option monad, [None]
    for a thrown exception; the [catch] leaves [responseText] as it was.
    [extract_content] is the value of [content] after the [if]/[else if]. *)
Definition extract_content (jsonData : value) : option value :=
  response <- Get jsonData (js "response") ;;
  if nonempty_string response
  then Get jsonData (js "response")
  else if truthy (nested_content jsonData)
  then
    choices <- Get jsonData (js "choices") ;;
    first <- Get choices (js "0") ;;
    delta <- Get first (js "delta") ;;
    Get delta (js "content")
  else Some (VStr []).

Definition try_append (responseText data : jstring) : option jstring :=
  jsonData <- JSON_parse data ;;
  content <- extract_content jsonData ;;
  if truthy content
  then s <- ToString content ;; Some (responseText ++ s)
  else Some responseText.

Definition appendChunkFromSseData (responseText data : jstring) : jstring :=
  match try_append responseText data with
  | Some responseText' => responseText'
  | None => responseText
  end.

(** The events strictly before the first sentinel, and whether there is
    a sentinel: the words of the sentinel rule. *)
Fixpoint before_done (events : list jstring) : list jstring :=
  match events with
  | [] => []
  | data :: rest => if jstring_eqb data DONE then [] else data :: before_done rest
  end.

Definition has_done (events : list jstring) : bool :=
  existsb (fun data => jstring_eqb data DONE) events.

(** The text accumulated by handling every event of a list. *)
Definition accumulate (events : list jstring) (responseText : jstring) : jstring :=
  fold_left appendChunkFromSseData events responseText.

(** [for (const data of parsed.events)]: stops at the first [[DONE]];
    the flag tells whether it was met. *)
Fixpoint process_events (events : list jstring) (responseText : jstring)
  : bool * jstring :=
  match events with
  | [] => (false, responseText)
  | data :: rest =>
      if jstring_eqb data DONE then (true, responseText)
      else process_events rest (appendChunkFromSseData responseText data)
  end.

(** The chunk source after decoding: the texts that successive
    [reader.read()] calls deliver through the streaming decoder, and what
    follows the last of them. *)
Inductive source_end := EndOfData | ReadFails.
Record body_stream := { chunks : list jstring; ending : source_end }.

Inductive loop_exit := Concluded | Thrown.

(** The [while (true)] read loop, one iteration per chunk. *)
Fixpoint read_loop (chunks : list jstring) (ending : source_end)
  (buffer responseText : jstring) : loop_exit * jstring :=
  match chunks with
  | [] =>
      match ending with
      | ReadFails => (Thrown, responseText)
      | EndOfData =>
          let parsed := consumeSseEvents (buffer ++ blank_line) in
          (Concluded, snd (process_events (events parsed) responseText))
      end
  | value :: later =>
      let buffer := buffer ++ value in
      let parsed := consumeSseEvents buffer in
      let buffer := Framer.buffer parsed in
      let (sawDone, responseText) := process_events (events parsed) responseText in
      if sawDone then (Concluded, responseText)
      else read_loop later ending buffer responseText
  end.

(** What [window.getSelectedAgent] offers to [getAgent]. *)
Inductive selector := NoSelector | SelectorThrows | Selected (agent : jstring).

Definition getAgent (w : selector) : jstring :=
  match w with
  | Selected agent => if jstring_eqb agent [] then js "azure" else agent
  | NoSelector | SelectorThrows => js "azure"
  end.

Record turn := { turn_role : role; content : jstring }.

Record response := {
  ok : bool;
  status : N;
  text : option jstring;
  body : option body_stream
}.

Inductive fetch_outcome := FetchRejected | FetchResolved (r : response).

Record request := { agent : jstring; messages : list turn }.

Inductive console_entry :=
| ErrFetch
| ErrStatus (status : N) (details : jstring)
| ErrNullBody
| ErrRead.

(** The module-level variables and the page elements that [sendMessage]
    reads and writes. Layout ([style], [scrollTop], [focus]) is left out. *)
Record state := {
  chatHistory : list turn;
  isProcessing : bool;
  userInput_value : jstring;
  userInput_disabled : bool;
  sendButton_disabled : bool;
  typingIndicator_visible : bool;
  chatMessages : list element;
  console : list console_entry
}.

Definition greeting : turn :=
  {| turn_role := assistant;
     content := js "Hello! I'm an LLM chat app. Choose an agent above and ask me anything." |}.

Definition initial_state : state :=
  {| chatHistory := [greeting];
     isProcessing := false;
     userInput_value := [];
     userInput_disabled := false;
     sendButton_disabled := false;
     typingIndicator_visible := false;
     chatMessages := [];
     console := [] |}.

Definition error_notice : jstring :=
  js "Sorry, there was an error processing your request.".

(** Lines 61 to 77: the accepted message is shown and recorded, and the
    page is put in its busy state. *)
Definition start_cycle (message : jstring) (st : state) : state :=
  {| chatHistory := chatHistory st ++ [{| turn_role := user; content := message |}];
     isProcessing := true;
     userInput_value := [];
     userInput_disabled := true;
     sendButton_disabled := true;
     typingIndicator_visible := true;
     chatMessages := addMessageToChat user message (chatMessages st);
     console := console st |}.

Definition with_reply_element (badge responseText : jstring) (st : state) : state :=
  {| chatHistory := chatHistory st;
     isProcessing := isProcessing st;
     userInput_value := userInput_value st;
     userInput_disabled := userInput_disabled st;
     sendButton_disabled := sendButton_disabled st;
     typingIndicator_visible := typingIndicator_visible st;
     chatMessages := chatMessages st ++ [StreamingMessage badge responseText];
     console := console st |}.

Definition push_history (t : turn) (st : state) : state :=
  {| chatHistory := chatHistory st ++ [t];
     isProcessing := isProcessing st;
     userInput_value := userInput_value st;
     userInput_disabled := userInput_disabled st;
     sendButton_disabled := sendButton_disabled st;
     typingIndicator_visible := typingIndicator_visible st;
     chatMessages := chatMessages st;
     console := console st |}.

(** The [try] block: the reply element is created with its badge, the
    request is sent with the history as it stands, and the reply is read.
    The element's text is what the last [flushAssistantText] left in it.
    The result carries the exception that left the block, if one did. *)
Definition try_block (agent : jstring) (net : fetch_outcome) (st : state)
  : state * option console_entry * request :=
  let badge := if jstring_eqb agent (js "cf") then js "Cloudflare" else js "Azure" in
  let sent := {| agent := agent; messages := chatHistory st |} in
  match net with
  | FetchRejected => (with_reply_element badge [] st, Some ErrFetch, sent)
  | FetchResolved r =>
      if negb (ok r) then
        (with_reply_element badge [] st,
         Some (ErrStatus (status r) (match text r with Some d => d | None => [] end)),
         sent)
      else
        match body r with
        | None => (with_reply_element badge [] st, Some ErrNullBody, sent)
        | Some b =>
            match read_loop (chunks b) (ending b) [] [] with
            | (Thrown, responseText) =>
                (with_reply_element badge responseText st, Some ErrRead, sent)
            | (Concluded, responseText) =>
                let st' := with_reply_element badge responseText st in
                (if negb (jstring_eqb responseText [])
                 then push_history {| turn_role := assistant; content := responseText |} st'
                 else st',
                 None, sent)
            end
        end
  end.

(** The [catch] block. *)
Definition catch_block (e : console_entry) (st : state) : state :=
  {| chatHistory := chatHistory st;
     isProcessing := isProcessing st;
     userInput_value := userInput_value st;
     userInput_disabled := userInput_disabled st;
     sendButton_disabled := sendButton_disabled st;
     typingIndicator_visible := typingIndicator_visible st;
     chatMessages := addMessageToChat assistant error_notice (chatMessages st);
     console := console st ++ [e] |}.

(** The [finally] block. *)
Definition finally_block (st : state) : state :=
  {| chatHistory := chatHistory st;
     isProcessing := false;
     userInput_value := userInput_value st;
     userInput_disabled := false;
     sendButton_disabled := false;
     typingIndicator_visible := false;
     chatMessages := chatMessages st;
     console := console st |}.

(** [sendMessage]: the state it leaves and the request it issued, if any. *)
Definition sendMessage (w : selector) (net : fetch_outcome) (st : state)
  : state * option request :=
  let message := trim (userInput_value st) in
  if jstring_eqb message [] || isProcessing st then (st, None)
  else
    let agent := getAgent w in
    let '(st', exn, sent) := try_block agent net (start_cycle message st) in
    (finally_block match exn with
                   | Some e => catch_block e st'
                   | None => st'
                   end,
     Some sent).

(** A user action: typing [typed] into the input and submitting it, with
    the network answering [net]. *)
Record interaction := {
  typed : jstring;
  selected : selector;
  net : fetch_outcome
}.

Definition with_input (typed : jstring) (st : state) : state :=
  {| chatHistory := chatHistory st;
     isProcessing := isProcessing st;
     userInput_value := typed;
     userInput_disabled := userInput_disabled st;
     sendButton_disabled := sendButton_disabled st;
     typingIndicator_visible := typingIndicator_visible st;
     chatMessages := chatMessages st;
     console := console st |}.

Definition submit (i : interaction) (st : state) : state * option request :=
  sendMessage (selected i) (net i) (with_input (typed i) st).

(** A session: the requests sent, oldest first, and the state reached.
    Cycles are taken one after the other: a submission made while one is in
    flight finds [isProcessing] set and returns at once. *)
Fixpoint session (acts : list interaction) (st : state) : list request * state :=
  match acts with
  | [] => ([], st)
  | i :: acts' =>
      let (st', sent) := submit i st in
      let (reqs, final) := session acts' st' in
      (match sent with Some r => r :: reqs | None => reqs end, final)
  end.

End WithNumbers.

End Coordinator.
Import Coordinator.

(** ** Streams used as examples *)

Module Examples.

(** One event as a server writes it: a [data:] line and a blank line. *)
Definition sse_event (payload : jstring) : jstring :=
  js "data: " ++ payload ++ blank_line.

(** The stream of the sentinel example: A, B, the sentinel, C. *)
Definition abc_stream : jstring :=
  concat (map sse_event
            [jsq "{'response':'A'}"; jsq "{'response':'B'}";
             js "[DONE]"; jsq "{'response':'C'}"]).

(** A stream whose last event is not followed by a blank line. *)
Definition unterminated_stream : jstring :=
  sse_event (jsq "{'response':'A'}") ++ js "data: " ++ jsq "{'response':'B'}".

(** A page on which the user has typed a message. *)
Definition typed_hello : state :=
  with_input (js "  hello ") initial_state.

Definition ok_response (chunks : list jstring) : response :=
  {| ok := true; status := 200%N; text := None;
     body := Some {| chunks := chunks; ending := EndOfData |} |}.

Definition error_response : response :=
  {| ok := false; status := 500%N; text := Some (js "upstream failed");
     body := None |}.

End Examples.
Import Examples.

(** ** Shapes of texts and histories used to state further properties *)

Module Shapes.

(** The same text with every newline written as carriage return, newline. *)
Definition to_crlf (t : jstring) : jstring := replace_all LF [CR; LF] t.

(** The five characters that [escapeHtml] replaces. *)
Definition is_escaped_char (c : code_unit) : bool :=
  N.eqb c 38 || is_markup_char c.

(** [a] is the beginning of [b]. *)
Definition begins {A : Type} (a b : list A) : Prop := exists rest, b = a ++ rest.

(** A turn as [sendMessage] records it: never empty, and a user turn is
    the trimmed input. *)
Definition recorded_turn (t : turn) : Prop :=
  content t <> [] /\ (turn_role t = user -> trim (content t) = content t).

(** No two assistant turns stand next to each other. *)
Fixpoint replies_follow_questions (history : list turn) : Prop :=
  match history with
  | a :: ((b :: _) as rest) =>
      (turn_role a = assistant -> turn_role b = user) /\
      replies_follow_questions rest
  | _ => True
  end.

(** Every list of a sequence begins with the lists before it. *)
Fixpoint cumulative {A : Type} (ls : list (list A)) : Prop :=
  match ls with
  | [] => True
  | l :: later => Forall (begins l) later /\ cumulative later
  end.

(** The delta of a payload, case by case, as the statement about delta
    extraction words it: nothing for a text that is not JSON or denotes
    [null]; the direct field when it is a non-empty string; otherwise the
    string form of the nested field when that field is truthy and its
    conversion does not throw; otherwise nothing. *)
Definition stated_delta `{NumberSemantics} (data : jstring) : jstring :=
  match JSON_parse data with
  | None => []
  | Some jsonData =>
      match Get jsonData (js "response") with
      | None => []
      | Some (VStr (c :: s)) => c :: s
      | Some _ =>
          if truthy (nested_content jsonData)
          then match ToString (nested_content jsonData) with
               | Some s => s
               | None => []
               end
          else []
      end
  end.

End Shapes.
Import Shapes.

(** * Properties *)

(** ** Strings *)

Section StringFacts.

Lemma startsWith_length (s p : jstring) :
  startsWith s p = true -> length p <= length s.
Proof.
  revert s. induction p as [|c p IH]; intros [|d s]; cbn [startsWith length];
    intros Hp; try lia; try discriminate.
  apply andb_prop in Hp as [_ Hp]. apply IH in Hp. lia.
Qed.

Lemma startsWith_prefix (p t : jstring) : startsWith (p ++ t) p = true.
Proof.
  induction p as [|c p IH]; [destruct t; reflexivity|].
  cbn [app startsWith]. rewrite N.eqb_refl. exact IH.
Qed.

Lemma startsWith_split (s p : jstring) :
  startsWith s p = true -> s = p ++ skipn (length p) s.
Proof.
  revert s. induction p as [|c p IH]; intros [|d s]; cbn [startsWith app length skipn];
    intros Hp; try reflexivity; try discriminate.
  apply andb_prop in Hp as [Hc Hp]. apply N.eqb_eq in Hc. subst d.
  f_equal. apply IH, Hp.
Qed.

(** A match inside [s] is not disturbed by text that arrives after [s]. *)
Lemma startsWith_app_long (s t p : jstring) :
  length p <= length s -> startsWith (s ++ t) p = startsWith s p.
Proof.
  revert s. induction p as [|c p IH]; intros [|d s]; cbn [startsWith app length];
    intros Hl; try reflexivity; try lia.
  - destruct t; reflexivity.
  - rewrite IH by lia. reflexivity.
Qed.

Lemma indexOf_cons (c : code_unit) (s p : jstring) :
  indexOf (c :: s) p =
  if startsWith (c :: s) p then Some 0 else option_map S (indexOf s p).
Proof. reflexivity. Qed.

Lemma indexOf_bound (s p : jstring) (i : nat) :
  indexOf s p = Some i -> i + length p <= length s.
Proof.
  revert i. induction s as [|c s IH]; intros i; cbn [indexOf];
    destruct (startsWith _ p) eqn:E.
  - intros [= <-]. apply startsWith_length in E. lia.
  - discriminate.
  - intros [= <-]. apply startsWith_length in E. lia.
  - destruct (indexOf s p) as [j|]; cbn; [|discriminate].
    intros [= <-]. specialize (IH j eq_refl). cbn [length]. lia.
Qed.

Lemma indexOf_app (s t p : jstring) (i : nat) :
  indexOf s p = Some i -> indexOf (s ++ t) p = Some i.
Proof.
  revert i. induction s as [|c s IH]; intros i Hi.
  - cbn [indexOf] in Hi. destruct (startsWith [] p) eqn:E; [|discriminate].
    injection Hi as <-. destruct p; [|discriminate].
    destruct t; reflexivity.
  - pose proof (indexOf_bound _ _ _ Hi) as Hb.
    cbn [indexOf] in Hi. cbn [app indexOf].
    destruct (startsWith (c :: s) p) eqn:E.
    + injection Hi as <-.
      change (c :: s ++ t) with ((c :: s) ++ t).
      rewrite startsWith_app_long, E by lia. reflexivity.
    + change (c :: s ++ t) with ((c :: s) ++ t).
      rewrite startsWith_app_long, E by lia.
      destruct (indexOf s p) as [j|] eqn:Ej; [|discriminate].
      rewrite (IH j eq_refl). exact Hi.
Qed.

(** [indexOf] returns a position where the pattern occurs. *)
Lemma indexOf_found (s p : jstring) (i : nat) :
  indexOf s p = Some i -> startsWith (skipn i s) p = true.
Proof.
  revert i. induction s as [|c s IH]; intros i; cbn [indexOf];
    destruct (startsWith _ p) eqn:E.
  - intros [= <-]. exact E.
  - discriminate.
  - intros [= <-]. exact E.
  - destruct (indexOf s p) as [j|]; cbn [option_map]; [|discriminate].
    intros [= <-]. cbn [skipn]. apply IH. reflexivity.
Qed.

(** No occurrence starts before the position that [indexOf] returns. *)
Lemma indexOf_first (s p : jstring) (i j : nat) :
  indexOf s p = Some i -> j < i -> startsWith (skipn j s) p = false.
Proof.
  revert i j. induction s as [|c s IH]; intros i j; cbn [indexOf];
    destruct (startsWith _ p) eqn:E.
  - intros [= <-]. lia.
  - discriminate.
  - intros [= <-]. lia.
  - destruct (indexOf s p) as [k|] eqn:Ek; cbn [option_map]; [|discriminate].
    intros [= <-] Hj. destruct j as [|j]; [exact E|].
    cbn [skipn]. apply (IH k); [reflexivity | lia].
Qed.

Lemma indexOf_none (s p : jstring) (j : nat) :
  indexOf s p = None -> j <= length s -> startsWith (skipn j s) p = false.
Proof.
  revert j. induction s as [|c s IH]; intros j; cbn [indexOf];
    destruct (startsWith _ p) eqn:E; try discriminate.
  - intros _ Hj. cbn in Hj. assert (j = 0) by lia. subst. exact E.
  - destruct (indexOf s p) eqn:Ek; cbn [option_map]; [discriminate|].
    intros _ Hj. destruct j as [|j]; [exact E|].
    cbn [skipn]. apply IH; [reflexivity | cbn in Hj; lia].
Qed.

End StringFacts.

(** ** The framer *)

Section FramerFacts.

Lemma frame_loop_unfold (s : jstring) :
  frame_loop s =
  match indexOf s blank_line with
  | None => {| events := []; buffer := s |}
  | Some i =>
      {| events := block_events (slice_to s i) ++
                   events (frame_loop (slice_from s (i + 2)));
         buffer := buffer (frame_loop (slice_from s (i + 2))) |}
  end.
Proof.
  funelim (frame_loop s).
  - rewrite Hidx. reflexivity.
  - match goal with E : indexOf _ _ = None |- _ => rewrite E end. reflexivity.
Qed.

Lemma framed_eta (f : framed) : {| events := events f; buffer := buffer f |} = f.
Proof. destruct f; reflexivity. Qed.

(** Framing [a ++ b] frames [a] and then goes on with what [a] left over. *)
Lemma frame_loop_app (a b : jstring) :
  frame_loop (a ++ b) =
  {| events := events (frame_loop a) ++
               events (frame_loop (buffer (frame_loop a) ++ b));
     buffer := buffer (frame_loop (buffer (frame_loop a) ++ b)) |}.
Proof.
  revert b. funelim (frame_loop a); intros b.
  - pose proof (indexOf_bound _ _ _ Hidx) as Hb. cbn [blank_line length] in Hb.
    rewrite (frame_loop_unfold (normalized ++ b)).
    rewrite (indexOf_app _ b _ _ Hidx).
    unfold slice_to, slice_from in *.
    rewrite firstn_app, skipn_app.
    replace (eventEndIndex - length normalized) with 0 by lia.
    replace (eventEndIndex + 2 - length normalized) with 0 by lia.
    cbn [firstn skipn]. rewrite app_nil_r.
    match goal with IH : forall b, frame_loop (_ ++ b) = _ |- _ => rewrite IH end.
    cbn [events buffer]. rewrite app_assoc. reflexivity.
  - cbn [events buffer app]. symmetry. apply framed_eta.
Qed.

Lemma strip_cr_app (a b : jstring) : strip_cr (a ++ b) = strip_cr a ++ strip_cr b.
Proof. apply flat_map_app. Qed.

Lemma strip_cr_no_cr (s : jstring) : no_cr (strip_cr s).
Proof.
  induction s as [|c s IH]; [constructor|].
  unfold strip_cr, replace_all. cbn [flat_map].
  destruct (N.eqb c CR) eqn:E; [exact IH|].
  constructor; [apply N.eqb_neq, E | exact IH].
Qed.

Lemma strip_cr_fixed (s : jstring) : no_cr s -> strip_cr s = s.
Proof.
  induction 1 as [|c s Hc _ IH]; [reflexivity|].
  unfold strip_cr, replace_all in *. cbn [flat_map].
  apply N.eqb_neq in Hc. rewrite Hc, IH. reflexivity.
Qed.

Lemma no_cr_skipn (n : nat) (s : jstring) : no_cr s -> no_cr (skipn n s).
Proof.
  unfold no_cr. intros Hs. rewrite <- (firstn_skipn n s) in Hs.
  apply Forall_app in Hs. apply Hs.
Qed.

(** The remainder is a piece of the normalized text without a blank line. *)
Lemma remainder_no_cr (s : jstring) : no_cr s -> no_cr (buffer (frame_loop s)).
Proof.
  funelim (frame_loop s); intros Hs; cbn [buffer]; [|exact Hs].
  match goal with IH : _ -> no_cr _ |- _ => apply IH end.
  apply no_cr_skipn, Hs.
Qed.

Lemma remainder_no_blank_line (s : jstring) :
  indexOf (buffer (frame_loop s)) blank_line = None.
Proof.
  funelim (frame_loop s); cbn [buffer]; assumption.
Qed.

Lemma frame_loop_remainder (s : jstring) :
  frame_loop (buffer (frame_loop s)) =
  {| events := []; buffer := buffer (frame_loop s) |}.
Proof.
  rewrite (frame_loop_unfold (buffer (frame_loop s))).
  rewrite remainder_no_blank_line. reflexivity.
Qed.

Lemma consume_remainder (b : jstring) :
  consumeSseEvents (buffer (consumeSseEvents b)) =
  {| events := []; buffer := buffer (consumeSseEvents b) |}.
Proof.
  unfold consumeSseEvents.
  rewrite (strip_cr_fixed _ (remainder_no_cr _ (strip_cr_no_cr b))).
  apply frame_loop_remainder.
Qed.

Lemma consume_app (a b : jstring) :
  consumeSseEvents (a ++ b) =
  {| events := events (consumeSseEvents a) ++
               events (consumeSseEvents (buffer (consumeSseEvents a) ++ b));
     buffer := buffer (consumeSseEvents (buffer (consumeSseEvents a) ++ b)) |}.
Proof.
  unfold consumeSseEvents. rewrite !strip_cr_app, frame_loop_app.
  rewrite (strip_cr_fixed _ (remainder_no_cr _ (strip_cr_no_cr a))). reflexivity.
Qed.

(** Threading from a remainder [b] equals one call on [b] and all chunks. *)
Lemma feed_chunks_from (b : jstring) (chunks : list jstring) :
  consumeSseEvents b = {| events := []; buffer := b |} ->
  feed_chunks b chunks =
  (events (consumeSseEvents (b ++ concat chunks)),
   buffer (consumeSseEvents (b ++ concat chunks))).
Proof.
  revert b. induction chunks as [|c cs IH]; intros b Hb.
  - cbn [feed_chunks concat]. rewrite app_nil_r, Hb. reflexivity.
  - cbn [feed_chunks concat].
    rewrite (IH _ (consume_remainder (b ++ c))).
    rewrite app_assoc, (consume_app (b ++ c) (concat cs)). cbn [events buffer].
    rewrite (consume_app (buffer (consumeSseEvents (b ++ c))) (concat cs)).
    rewrite consume_remainder. cbn [events buffer app]. reflexivity.
Qed.

Lemma chomp_cases (s : jstring) : s = chomp s \/ s = chomp s ++ [LF].
Proof.
  induction s as [|c [|d s] IH]; [left; reflexivity| |].
  - cbn [chomp]. destruct (N.eqb c LF) eqn:E; [right|left; reflexivity].
    apply N.eqb_eq in E. subst. reflexivity.
  - change (chomp (c :: d :: s)) with (c :: chomp (d :: s)).
    destruct IH as [IH|IH]; [left|right]; cbn [app]; f_equal; exact IH.
Qed.

Lemma indexOf_terminated (n : jstring) :
  indexOf n blank_line = None ->
  indexOf (n ++ blank_line) blank_line = Some (length (chomp n)).
Proof.
  induction n as [|c [|d n] IH]; intros Hn.
  - reflexivity.
  - cbn [app chomp indexOf blank_line startsWith].
    rewrite (N.eqb_sym LF c). destruct (N.eqb c LF) eqn:E; cbn [andb length].
    + rewrite N.eqb_refl. reflexivity.
    + rewrite !N.eqb_refl. reflexivity.
  - change (chomp (c :: d :: n)) with (c :: chomp (d :: n)).
    rewrite indexOf_cons in Hn.
    destruct (startsWith (c :: d :: n) blank_line) eqn:E; [discriminate|].
    destruct (indexOf (d :: n) blank_line) eqn:En; [discriminate|].
    change ((c :: d :: n) ++ blank_line) with (c :: (d :: n) ++ blank_line).
    rewrite indexOf_cons.
    change (c :: (d :: n) ++ blank_line) with ((c :: d :: n) ++ blank_line).
    rewrite startsWith_app_long, E by (cbn; lia).
    rewrite (IH eq_refl). reflexivity.
Qed.

Lemma split_lines_nonempty (s : jstring) : split_lines s <> [].
Proof.
  destruct s as [|c s]; [discriminate|].
  cbn [split_lines]. destruct (N.eqb c LF); [discriminate|].
  destruct (split_lines s); discriminate.
Qed.

Lemma split_lines_app_LF (s : jstring) :
  split_lines (s ++ [LF]) = split_lines s ++ [[]].
Proof.
  induction s as [|c s IH]; [reflexivity|].
  cbn [app split_lines]. destruct (N.eqb c LF).
  - rewrite IH. reflexivity.
  - rewrite IH. pose proof (split_lines_nonempty s).
    destruct (split_lines s); [contradiction | reflexivity].
Qed.

Lemma dataLines_chomp (n : jstring) : dataLines (chomp n) = dataLines n.
Proof.
  destruct (chomp_cases n) as [E|E]; [rewrite <- E; reflexivity|].
  rewrite E at 2. unfold dataLines.
  rewrite split_lines_app_LF, filter_app, map_app. cbn. rewrite app_nil_r.
  reflexivity.
Qed.

(** A text without a blank line, closed by one, is cut into a single raw
    block; at most the newline that ended its last line is left over. *)
Lemma frame_loop_terminated (n : jstring) :
  indexOf n blank_line = None ->
  events (frame_loop (n ++ blank_line)) = block_events n /\
  (buffer (frame_loop (n ++ blank_line)) = [] \/
   buffer (frame_loop (n ++ blank_line)) = [LF]).
Proof.
  intros Hn. rewrite frame_loop_unfold, (indexOf_terminated _ Hn).
  cbn [events buffer]. unfold slice_to, slice_from.
  assert (Hcut : firstn (length (chomp n)) (n ++ blank_line) = chomp n /\
                 (skipn (length (chomp n) + 2) (n ++ blank_line) = [] \/
                  skipn (length (chomp n) + 2) (n ++ blank_line) = [LF])).
  { clear Hn. destruct (chomp_cases n) as [E|E];
      remember (chomp n) as m eqn:Hm; clear Hm; subst n.
    - split.
      + rewrite firstn_app, firstn_all, Nat.sub_diag. apply app_nil_r.
      + left. apply skipn_all2. rewrite length_app. cbn. lia.
    - rewrite <- !app_assoc. split.
      + rewrite firstn_app, firstn_all, Nat.sub_diag. apply app_nil_r.
      + right. rewrite skipn_app, skipn_all2 by lia.
        replace (length m + 2 - length m) with 2 by lia.
        reflexivity. }
  destruct Hcut as [-> Hrest].
  assert (Hev : block_events (chomp n) = block_events n).
  { unfold block_events. rewrite dataLines_chomp. reflexivity. }
  rewrite Hev.
  destruct Hrest as [-> | ->]; rewrite frame_loop_unfold; cbn;
    (split; [apply app_nil_r | auto]).
Qed.

Lemma consume_terminated (block : jstring) :
  indexOf (strip_cr block) blank_line = None ->
  events (consumeSseEvents (block ++ blank_line)) = block_events (strip_cr block) /\
  (buffer (consumeSseEvents (block ++ blank_line)) = [] \/
   buffer (consumeSseEvents (block ++ blank_line)) = [LF]).
Proof.
  intros Hn. unfold consumeSseEvents. rewrite strip_cr_app.
  change (strip_cr blank_line) with blank_line.
  apply frame_loop_terminated, Hn.
Qed.

Lemma block_events_lines (n : jstring) :
  block_events n =
  match filter is_data_line (split_lines n) with
  | [] => []
  | data_lines => [join_lines (map line_payload data_lines)]
  end.
Proof.
  unfold block_events, dataLines.
  destruct (filter is_data_line (split_lines n)); reflexivity.
Qed.

Lemma single_line_split (line : jstring) :
  single_line line -> split_lines line = [line].
Proof.
  induction 1 as [|c s [Hc _] _ IH]; [reflexivity|].
  cbn [split_lines]. apply N.eqb_neq in Hc. rewrite Hc, IH. reflexivity.
Qed.

Lemma single_line_no_blank (line : jstring) :
  single_line line -> indexOf line blank_line = None.
Proof.
  induction 1 as [|c s [Hc _] _ IH]; [reflexivity|].
  rewrite indexOf_cons, IH. cbn [startsWith blank_line].
  apply N.eqb_neq in Hc. rewrite (N.eqb_sym LF c), Hc. reflexivity.
Qed.

Lemma single_line_no_cr (line : jstring) : single_line line -> no_cr line.
Proof. apply Forall_impl. intros c [_ Hc]. exact Hc. Qed.

Lemma trimStart_split (s : jstring) :
  exists ws, forallb is_white_space ws = true /\ s = ws ++ trimStart s.
Proof.
  induction s as [|c s [ws [Hws Hs]]]; [exists []; split; reflexivity|].
  cbn [trimStart]. destruct (is_white_space c) eqn:E.
  - exists (c :: ws). cbn [forallb app]. rewrite E, Hws, <- Hs. split; reflexivity.
  - exists []. split; reflexivity.
Qed.

Lemma trimStart_head (s : jstring) :
  match trimStart s with
  | [] => True
  | c :: _ => is_white_space c = false
  end.
Proof.
  induction s as [|c s IH]; [exact I|].
  cbn [trimStart]. destruct (is_white_space c) eqn:E; [exact IH | exact E].
Qed.

End FramerFacts.

(** C2. Chunk-boundary invariance: for every text cut into any number of
    chunks, feeding the chunks one by one, each appended to the remainder
    of the call before, yields the same events in the same order (and the
    same final remainder) as one call on the whole text. The framer is a
    function of its buffer alone, as the source reads nothing but its
    parameter: equal buffers give equal events and remainders; and calling
    it again on the remainder it returned yields no event and the same
    remainder. *)
Theorem chunk_boundary_invariance :
  (forall chunks : list jstring,
     feed_chunks [] chunks =
     (events (consumeSseEvents (concat chunks)),
      buffer (consumeSseEvents (concat chunks)))) /\
  (forall b1 b2 : jstring,
     b1 = b2 ->
     events (consumeSseEvents b1) = events (consumeSseEvents b2) /\
     buffer (consumeSseEvents b1) = buffer (consumeSseEvents b2)) /\
  (forall b : jstring,
     consumeSseEvents (buffer (consumeSseEvents b)) =
     {| events := []; buffer := buffer (consumeSseEvents b) |}).
Proof.
  split; [|split].
  - intros chunks. apply (feed_chunks_from [] chunks). reflexivity.
  - intros b1 b2 ->. split; reflexivity.
  - apply consume_remainder.
Qed.

(** C1, as the code has it. For every line that begins with [data:], the
    framer drops the prefix and then all the white space that follows it
    ([trimStart]): the line is the prefix, a run of white space and the
    payload, and the payload does not begin with white space. A block made
    of that single line yields that payload as its event. *)
Theorem data_line_payload (line : jstring) :
  is_data_line line = true ->
  single_line line ->
  events (consumeSseEvents (line ++ blank_line)) = [line_payload line] /\
  (exists ws, forallb is_white_space ws = true /\
              line = data_prefix ++ ws ++ line_payload line) /\
  match line_payload line with
  | [] => True
  | c :: _ => is_white_space c = false
  end.
Proof.
  intros Hd Hl. split; [|split].
  - pose proof (strip_cr_fixed _ (single_line_no_cr _ Hl)) as Hs.
    destruct (consume_terminated line) as [Hev _].
    { rewrite Hs. apply single_line_no_blank, Hl. }
    rewrite Hev, Hs. unfold block_events, dataLines.
    rewrite (single_line_split _ Hl). cbn [filter]. rewrite Hd. reflexivity.
  - destruct (trimStart_split (slice_from line (length data_prefix))) as [ws [Hws Hs]].
    exists ws. split; [exact Hws|].
    unfold line_payload. rewrite <- Hs. apply startsWith_split, Hd.
  - apply trimStart_head.
Qed.

Lemma data_line_payload_witness :
  events (consumeSseEvents (js "data: hello" ++ blank_line)) = [js "hello"].
Proof.
  apply (data_line_payload (js "data: hello")).
  - reflexivity.
  - repeat constructor; discriminate.
Defined.

(** C1, as the claim words it, fails: the line [data:   x] with three spaces
    yields the payload [x], not the payload with two spaces retained. *)
Lemma three_spaces_not_retained :
  events (consumeSseEvents (js "data:   x" ++ blank_line)) = [js "x"] /\
  events (consumeSseEvents (js "data:   x" ++ blank_line)) <> [js "  x"].
Proof. split; [vm_compute; reflexivity | vm_compute; discriminate]. Qed.

(** C8. A complete block (a text without a blank line inside, closed by
    one) yields exactly one event when it has at least one [data:] line:
    the payloads of its [data:] lines, in order, joined with newlines. A
    block without a [data:] line yields no event. The same holds with any
    text after the block: that block's contribution comes first, and the
    framer goes on with the text after it. *)
Theorem complete_block_one_event (block : jstring) :
  indexOf (strip_cr block) blank_line = None ->
  events (consumeSseEvents (block ++ blank_line)) =
    match filter is_data_line (split_lines (strip_cr block)) with
    | [] => []
    | data_lines => [join_lines (map line_payload data_lines)]
    end /\
  exists r, (r = [] \/ r = [LF]) /\
    forall rest,
      events (consumeSseEvents (block ++ blank_line ++ rest)) =
      events (consumeSseEvents (block ++ blank_line)) ++
      events (consumeSseEvents (r ++ rest)).
Proof.
  intros Hn. destruct (consume_terminated block Hn) as [Hev Hr]. split.
  - rewrite Hev. apply block_events_lines.
  - exists (buffer (consumeSseEvents (block ++ blank_line))). split; [exact Hr|].
    intros rest. rewrite app_assoc, consume_app. reflexivity.
Qed.

Lemma complete_block_one_event_witness :
  events (consumeSseEvents (js "data: a" ++ [LF] ++ js ": note" ++ [LF] ++
                            js "data:b" ++ blank_line)) =
  [js "a" ++ [LF] ++ js "b"].
Proof.
  apply (complete_block_one_event
           (js "data: a" ++ [LF] ++ js ": note" ++ [LF] ++ js "data:b")).
  vm_compute. reflexivity.
Defined.

(** ** Escaping *)

Section EscapeFacts.

Lemma replace_all_app (c : code_unit) (r a b : jstring) :
  replace_all c r (a ++ b) = replace_all c r a ++ replace_all c r b.
Proof. apply flat_map_app. Qed.

Lemma escapeHtml_app (a b : jstring) :
  escapeHtml (a ++ b) = escapeHtml a ++ escapeHtml b.
Proof. unfold escapeHtml. rewrite !replace_all_app. reflexivity. Qed.

Lemma escapeHtml_char (c : code_unit) : escapeHtml [c] = entity_of c.
Proof.
  unfold escapeHtml, entity_of.
  destruct (N.eqb c 38) eqn:E38;
    [apply N.eqb_eq in E38; subst; reflexivity|].
  destruct (N.eqb c 60) eqn:E60;
    [apply N.eqb_eq in E60; subst; reflexivity|].
  destruct (N.eqb c 62) eqn:E62;
    [apply N.eqb_eq in E62; subst; reflexivity|].
  destruct (N.eqb c 34) eqn:E34;
    [apply N.eqb_eq in E34; subst; reflexivity|].
  destruct (N.eqb c 39) eqn:E39;
    [apply N.eqb_eq in E39; subst; reflexivity|].
  unfold replace_all. cbn [flat_map app].
  rewrite E38. cbn [flat_map app]. rewrite E60. cbn [flat_map app].
  rewrite E62. cbn [flat_map app]. rewrite E34. cbn [flat_map app].
  rewrite E39. reflexivity.
Qed.

Lemma escapeHtml_cons (c : code_unit) (s : jstring) :
  escapeHtml (c :: s) = entity_of c ++ escapeHtml s.
Proof.
  change (c :: s) with ([c] ++ s).
  rewrite escapeHtml_app, escapeHtml_char. reflexivity.
Qed.

Lemma escapeHtml_flat_map (s : jstring) : escapeHtml s = flat_map entity_of s.
Proof.
  induction s as [|c s IH]; [reflexivity|].
  rewrite escapeHtml_cons, IH. reflexivity.
Qed.

(** Each character's replacement is either the character itself, when it is
    none of the five, or an ampersand followed by an entity tail. *)
Lemma entity_of_cases (c : code_unit) :
  (entity_of c = [c] /\ c <> 38%N /\ is_markup_char c = false) \/
  (exists tail, In tail entity_tails /\ entity_of c = 38%N :: tail).
Proof.
  unfold entity_of, is_markup_char.
  destruct (N.eqb c 38) eqn:E38.
  { right. exists (js "amp;"). split; [cbn; auto | reflexivity]. }
  destruct (N.eqb c 60) eqn:E60.
  { right. exists (js "lt;"). split; [cbn; auto | reflexivity]. }
  destruct (N.eqb c 62) eqn:E62.
  { right. exists (js "gt;"). split; [cbn; auto | reflexivity]. }
  destruct (N.eqb c 34) eqn:E34.
  { right. exists (js "quot;"). split; [cbn; auto 6 | reflexivity]. }
  destruct (N.eqb c 39) eqn:E39.
  { right. exists (js "#039;"). split; [cbn; auto 7 | reflexivity]. }
  left. apply N.eqb_neq in E38. auto.
Qed.

Lemma entity_tail_plain (tail : jstring) :
  In tail entity_tails ->
  forallb (fun c => negb (N.eqb c 38) && negb (is_markup_char c)) tail = true.
Proof.
  cbn. intros [<-|[<-|[<-|[<-|[<-|[]]]]]]; reflexivity.
Qed.

Lemma escapeHtml_no_markup (s : jstring) :
  forallb (fun c => negb (is_markup_char c)) (escapeHtml s) = true.
Proof.
  induction s as [|c s IH]; [reflexivity|].
  rewrite escapeHtml_cons, forallb_app, IH, andb_true_r.
  destruct (entity_of_cases c) as [[-> [_ Hc]] | [tail [Ht ->]]].
  - cbn. rewrite Hc. reflexivity.
  - cbn [forallb]. apply entity_tail_plain in Ht.
    rewrite forallb_forall in Ht. apply andb_true_intro. split; [reflexivity|].
    apply forallb_forall. intros x Hx. specialize (Ht x Hx).
    apply andb_prop in Ht. apply Ht.
Qed.

(** Text without an ampersand cannot hide the place where one is found. *)
Lemma amp_after_plain (a b pre post : jstring) :
  forallb (fun c => negb (N.eqb c 38)) a = true ->
  a ++ b = pre ++ 38%N :: post ->
  exists pre', pre = a ++ pre' /\ b = pre' ++ 38%N :: post.
Proof.
  revert pre. induction a as [|x a IH]; intros pre Ha E.
  - exists pre. split; [reflexivity | exact E].
  - cbn [forallb] in Ha. apply andb_prop in Ha as [Hx Ha].
    destruct pre as [|y pre]; cbn [app] in E.
    + injection E as -> _. discriminate.
    + injection E as -> E. destruct (IH pre Ha E) as [pre' [-> Hb]].
      exists pre'. split; [reflexivity | exact Hb].
Qed.

Lemma escapeHtml_amp (s pre post : jstring) :
  escapeHtml s = pre ++ 38%N :: post ->
  exists tail, In tail entity_tails /\ startsWith post tail = true.
Proof.
  revert pre. induction s as [|c s IH]; intros pre E.
  - destruct pre; discriminate.
  - rewrite escapeHtml_cons in E.
    destruct (entity_of_cases c) as [[Hc [Hne _]] | [tail [Ht Hc]]]; rewrite Hc in E.
    + destruct pre as [|y pre]; cbn [app] in E.
      * injection E as -> _. contradiction.
      * injection E as _ E. apply (IH pre E).
    + destruct pre as [|y pre]; cbn [app] in E.
      * injection E as <-. exists tail. split; [exact Ht | apply startsWith_prefix].
      * injection E as _ E.
        pose proof (entity_tail_plain _ Ht) as Hp.
        assert (Hq : forallb (fun c => negb (N.eqb c 38)) tail = true).
        { rewrite forallb_forall in *. intros x Hx. specialize (Hp x Hx).
          apply andb_prop in Hp. apply Hp. }
        destruct (amp_after_plain _ _ _ _ Hq E) as [pre' [_ Hs]].
        apply (IH pre' Hs).
Qed.

End EscapeFacts.

(** C9. [escapeHtml] replaces every occurrence of the five characters by
    its entity and leaves every other character as it is; the result holds
    none of the characters <, >, double quote and apostrophe; wherever an
    ampersand stands in the result, one of the entities starts there; and
    the markup that [addMessageToChat] adds to the pane is the escaped
    message between the paragraph tags. *)
Theorem escapeHtml_entities :
  (forall str, escapeHtml str = flat_map entity_of str) /\
  (forall str, forallb (fun c => negb (is_markup_char c)) (escapeHtml str) = true) /\
  (forall str pre post,
     escapeHtml str = pre ++ 38%N :: post ->
     exists tail, In tail entity_tails /\ startsWith post tail = true) /\
  (forall r content pane,
     addMessageToChat r content pane =
     pane ++ [MarkupMessage (js "message " ++ role_name r ++ js "-message")
                            (js "<p>" ++ escapeHtml content ++ js "</p>")]).
Proof.
  split; [exact escapeHtml_flat_map|].
  split; [exact escapeHtml_no_markup|].
  split; [exact escapeHtml_amp | reflexivity].
Qed.

(** ** The stream coordinator *)

Section CoordinatorFacts.
Context `{NumberSemantics}.

Lemma jstring_eqb_eq (a b : jstring) : jstring_eqb a b = true <-> a = b.
Proof.
  unfold jstring_eqb. destruct (list_eq_dec N.eq_dec a b); split; auto; discriminate.
Qed.

Lemma jstring_eqb_neq (a b : jstring) : jstring_eqb a b = false <-> a <> b.
Proof.
  unfold jstring_eqb. destruct (list_eq_dec N.eq_dec a b); split; auto;
    try discriminate; contradiction.
Qed.

Lemma has_done_In (evs : list jstring) : has_done evs = true <-> In DONE evs.
Proof.
  unfold has_done. rewrite existsb_exists. split.
  - intros [x [Hx E]]. apply jstring_eqb_eq in E. subst. exact Hx.
  - intros Hin. exists DONE. split; [exact Hin | apply jstring_eqb_eq; reflexivity].
Qed.

Lemma process_events_spec (evs : list jstring) (text : jstring) :
  process_events evs text = (has_done evs, accumulate (before_done evs) text).
Proof.
  revert text. induction evs as [|data rest IH]; intros text; [reflexivity|].
  cbn [process_events has_done existsb before_done].
  destruct (jstring_eqb data DONE); [reflexivity|]. apply IH.
Qed.

Lemma before_done_all (evs : list jstring) :
  has_done evs = false -> before_done evs = evs.
Proof.
  induction evs as [|data rest IH]; [reflexivity|].
  cbn [has_done existsb before_done].
  destruct (jstring_eqb data DONE); [discriminate|].
  intros Hr. f_equal. apply IH, Hr.
Qed.

Lemma has_done_app (a b : list jstring) :
  has_done (a ++ b) = has_done a || has_done b.
Proof. apply existsb_app. Qed.

Lemma before_done_app (a b : list jstring) :
  before_done (a ++ b) =
  if has_done a then before_done a else a ++ before_done b.
Proof.
  induction a as [|data rest IH]; [reflexivity|].
  cbn [app before_done has_done existsb].
  destruct (jstring_eqb data DONE); [reflexivity|].
  cbn [orb]. change (existsb _ rest) with (has_done rest).
  rewrite IH. destruct (has_done rest); reflexivity.
Qed.

Lemma accumulate_app (a b : list jstring) (text : jstring) :
  accumulate (a ++ b) text = accumulate b (accumulate a text).
Proof. apply fold_left_app. Qed.

(** The read loop, started on a remainder [b], against one framing of all
    the text: it stops at the first sentinel; without one it throws when a
    read fails, and at the end of the data it handles the events of the
    remainder closed by a blank line. *)
Lemma read_loop_spec (chunks : list jstring) (ending : source_end)
  (b text : jstring) :
  consumeSseEvents b = {| events := []; buffer := b |} ->
  read_loop chunks ending b text =
  let whole := consumeSseEvents (b ++ concat chunks) in
  if has_done (events whole)
  then (Concluded, accumulate (before_done (events whole)) text)
  else match ending with
       | ReadFails => (Thrown, accumulate (events whole) text)
       | EndOfData =>
           (Concluded,
            accumulate
              (before_done (events (consumeSseEvents (buffer whole ++ blank_line))))
              (accumulate (events whole) text))
       end.
Proof.
  revert b text. induction chunks as [|c cs IH]; intros b text Hb.
  - cbn [read_loop concat]. rewrite app_nil_r, Hb. cbn [events buffer has_done existsb].
    destruct ending; [|reflexivity].
    rewrite process_events_spec. reflexivity.
  - cbn [read_loop concat]. rewrite process_events_spec.
    rewrite app_assoc, (consume_app (b ++ c) (concat cs)). cbn [events buffer].
    rewrite has_done_app, before_done_app.
    destruct (has_done (events (consumeSseEvents (b ++ c)))) eqn:Hd; [reflexivity|].
    cbn [orb]. rewrite (IH _ _ (consume_remainder (b ++ c))). cbv zeta.
    rewrite (before_done_all _ Hd).
    destruct (has_done (events (consumeSseEvents
                (buffer (consumeSseEvents (b ++ c)) ++ concat cs)))) eqn:Hd2.
    + rewrite accumulate_app. reflexivity.
    + rewrite !accumulate_app. destruct ending; reflexivity.
Qed.

(** Where the optional chain finds a value, the plain reads that follow
    find the same value and do not throw. *)
Lemma OptionalGet_defined (v : value) (key : jstring) :
  OptionalGet v key <> VUndefined -> Get v key = Some (OptionalGet v key).
Proof.
  unfold OptionalGet. destruct (Get v key); [reflexivity | contradiction].
Qed.

Lemma OptionalGet_source (v : value) (key : jstring) :
  OptionalGet v key <> VUndefined -> v <> VUndefined.
Proof. intros Hd ->. apply Hd. reflexivity. Qed.

Lemma truthy_defined (v : value) : truthy v = true -> v <> VUndefined.
Proof. intros Ht ->. discriminate. Qed.

Lemma nested_reads (v : value) :
  truthy (nested_content v) = true ->
  (choices <- Get v (js "choices") ;;
   first <- Get choices (js "0") ;;
   delta <- Get first (js "delta") ;;
   Get delta (js "content")) = Some (nested_content v).
Proof.
  intros Ht. apply truthy_defined in Ht. unfold nested_content in *.
  pose proof (OptionalGet_source _ _ Ht) as H3.
  pose proof (OptionalGet_source _ _ H3) as H2.
  pose proof (OptionalGet_source _ _ H2) as H1.
  rewrite (OptionalGet_defined _ _ H1), (OptionalGet_defined _ _ H2),
    (OptionalGet_defined _ _ H3).
  apply OptionalGet_defined, Ht.
Qed.

Lemma nonempty_string_spec (v : value) :
  nonempty_string v = true <-> exists s, v = VStr s /\ s <> [].
Proof.
  split.
  - destruct v as [| | | |s| |]; try discriminate.
    destruct s; [discriminate|]. intros _. eexists. split; [reflexivity | discriminate].
  - intros [s [-> Hs]]. destruct s; [contradiction | reflexivity].
Qed.

Lemma append_direct (text data : jstring) (v : value) (s : jstring) :
  JSON_parse data = Some v ->
  Get v (js "response") = Some (VStr s) -> s <> [] ->
  appendChunkFromSseData text data = text ++ s.
Proof.
  intros Hp Hg Hs. unfold appendChunkFromSseData, try_append, extract_content.
  rewrite Hp, Hg.
  assert (Hn : nonempty_string (VStr s) = true).
  { apply nonempty_string_spec. eauto. }
  rewrite Hn. unfold ToString. cbn [truthy ToString_within].
  apply jstring_eqb_neq in Hs. rewrite Hs. reflexivity.
Qed.

Lemma append_nested (text data : jstring) (v r : value) :
  JSON_parse data = Some v ->
  Get v (js "response") = Some r -> nonempty_string r = false ->
  truthy (nested_content v) = true ->
  appendChunkFromSseData text data =
  match ToString (nested_content v) with
  | Some s => text ++ s
  | None => text
  end.
Proof.
  intros Hp Hg Hr Ht. unfold appendChunkFromSseData, try_append, extract_content.
  rewrite Hp, Hg, Hr, Ht, (nested_reads _ Ht), Ht.
  destruct (ToString (nested_content v)); reflexivity.
Qed.

Lemma append_neither (text data : jstring) (v : value) :
  JSON_parse data = Some v ->
  (forall r, Get v (js "response") = Some r -> nonempty_string r = false) ->
  truthy (nested_content v) = false ->
  appendChunkFromSseData text data = text.
Proof.
  intros Hp Hr Ht. unfold appendChunkFromSseData, try_append, extract_content.
  rewrite Hp. destruct (Get v (js "response")) as [r|] eqn:Hg; [|reflexivity].
  rewrite (Hr r eq_refl), Ht. cbn. reflexivity.
Qed.

Lemma append_invalid (text data : jstring) :
  JSON_parse data = None -> appendChunkFromSseData text data = text.
Proof.
  intros Hp. unfold appendChunkFromSseData, try_append. rewrite Hp. reflexivity.
Qed.

End CoordinatorFacts.

(** C4, as the code has it. For every payload the text after the event
    is the text before it followed by the delta of the payload: the direct
    [response] field when it is a non-empty string, whatever else the
    payload holds; otherwise the nested [choices[0].delta.content], which is
    tested for truthiness only, so that a non-empty string there is the
    delta and any other truthy value there is appended in its string form
    ([true] for the boolean) unless its conversion throws; nothing when the
    direct field is not a non-empty string and the nested field is absent
    or falsy, and nothing for a payload that is not JSON. No case raises an
    error, and the events after a payload without a delta are handled as
    if it had not been there. The payloads of the claim are evaluated. *)
Theorem delta_extraction `{NumberSemantics} :
  (forall text data,
     appendChunkFromSseData text data = text ++ stated_delta data) /\
  (forall text data v s,
     JSON_parse data = Some v ->
     Get v (js "response") = Some (VStr s) -> s <> [] ->
     appendChunkFromSseData text data = text ++ s) /\
  (forall text data v r c,
     JSON_parse data = Some v ->
     Get v (js "response") = Some r -> nonempty_string r = false ->
     nested_content v = VStr c -> c <> [] ->
     appendChunkFromSseData text data = text ++ c) /\
  (forall text data v r,
     JSON_parse data = Some v ->
     Get v (js "response") = Some r -> nonempty_string r = false ->
     truthy (nested_content v) = true ->
     appendChunkFromSseData text data =
     match ToString (nested_content v) with
     | Some s => text ++ s
     | None => text
     end) /\
  (forall text data v r,
     JSON_parse data = Some v ->
     Get v (js "response") = Some r -> nonempty_string r = false ->
     nested_content v = VBool true ->
     appendChunkFromSseData text data = text ++ js "true") /\
  (forall text data v,
     JSON_parse data = Some v ->
     (forall r, Get v (js "response") = Some r -> nonempty_string r = false) ->
     truthy (nested_content v) = false ->
     appendChunkFromSseData text data = text) /\
  (forall text data,
     JSON_parse data = None -> appendChunkFromSseData text data = text) /\
  (forall text data rest,
     data <> DONE ->
     appendChunkFromSseData text data = text ->
     process_events (data :: rest) text = process_events rest text) /\
  (forall text,
     appendChunkFromSseData text (jsq "{'response':'Hi'}") = text ++ js "Hi" /\
     appendChunkFromSseData text (jsq "{'choices':[{'delta':{'content':'Hi'}}]}")
       = text ++ js "Hi" /\
     appendChunkFromSseData text (jsq "{'choices':[{'delta':{'content':true}}]}")
       = text ++ js "true" /\
     appendChunkFromSseData text (jsq "{}") = text /\
     appendChunkFromSseData text (js "not json") = text).
Proof.
  split.
  { intros text data. unfold stated_delta.
    destruct (JSON_parse data) as [v|] eqn:Hp;
      [|rewrite (append_invalid _ _ Hp); symmetry; apply app_nil_r].
    destruct (Get v (js "response")) as [r|] eqn:Hg.
    - destruct (nonempty_string r) eqn:Hr.
      + apply nonempty_string_spec in Hr as [s [-> Hs]].
        rewrite (append_direct text _ _ _ Hp Hg Hs).
        destruct s; [contradiction | reflexivity].
      + assert (Hsame :
          match r with
          | VStr (c :: s) => c :: s
          | _ => if truthy (nested_content v)
                 then match ToString (nested_content v) with
                      | Some s => s
                      | None => []
                      end
                 else []
          end =
          if truthy (nested_content v)
          then match ToString (nested_content v) with
               | Some s => s
               | None => []
               end
          else []).
        { destruct r as [| | | |[|c s]| |]; try reflexivity. discriminate Hr. }
        rewrite Hsame. destruct (truthy (nested_content v)) eqn:Ht.
        * rewrite (append_nested text _ _ _ Hp Hg Hr Ht).
          destruct (ToString (nested_content v));
            [reflexivity | symmetry; apply app_nil_r].
        * rewrite (append_neither text _ _ Hp); [symmetry; apply app_nil_r | | exact Ht].
          intros r' Hr'. rewrite Hg in Hr'. injection Hr' as <-. exact Hr.
    - unfold appendChunkFromSseData, try_append, extract_content.
      rewrite Hp, Hg. symmetry. apply app_nil_r. }
  split; [exact append_direct|].
  split.
  { intros text data v r c Hp Hg Hr Hn Hc.
    assert (Ht : truthy (nested_content v) = true).
    { rewrite Hn. cbn. apply jstring_eqb_neq in Hc. rewrite Hc. reflexivity. }
    rewrite (append_nested text _ _ _ Hp Hg Hr Ht), Hn. reflexivity. }
  split; [exact append_nested|].
  split.
  { intros text data v r Hp Hg Hr Hn.
    assert (Ht : truthy (nested_content v) = true) by (rewrite Hn; reflexivity).
    rewrite (append_nested text _ _ _ Hp Hg Hr Ht), Hn. reflexivity. }
  split; [exact append_neither|].
  split; [exact append_invalid|].
  split.
  { intros text data rest Hd Ha. cbn [process_events].
    apply jstring_eqb_neq in Hd. rewrite Hd, Ha. reflexivity. }
  intros text. split; [|split; [|split; [|split]]].
  - apply (append_direct text _ (VObj [(js "response", VStr (js "Hi"))]));
      [vm_compute; reflexivity | vm_compute; reflexivity | discriminate].
  - rewrite (append_nested text _
               (VObj [(js "choices",
                       VArr [VObj [(js "delta",
                                    VObj [(js "content", VStr (js "Hi"))])]])])
               VUndefined);
      [reflexivity | vm_compute; reflexivity | vm_compute; reflexivity
      | reflexivity | reflexivity].
  - rewrite (append_nested text _
               (VObj [(js "choices",
                       VArr [VObj [(js "delta",
                                    VObj [(js "content", VBool true)])]])])
               VUndefined);
      [reflexivity | vm_compute; reflexivity | vm_compute; reflexivity
      | reflexivity | reflexivity].
  - apply (append_neither text _ (VObj []));
      [vm_compute; reflexivity | | reflexivity].
    intros r [= <-]. reflexivity.
  - apply append_invalid. vm_compute. reflexivity.
Qed.

(** C4, as the claim words it, fails: in the payload below the direct field
    is absent and the nested field is the boolean [true], no string, so the
    payload matches neither schema; yet the event adds the text [true]. *)
Lemma truthy_content_gives_delta :
  JSON_parse (jsq "{'choices':[{'delta':{'content':true}}]}") =
    Some (VObj [(js "choices",
                 VArr [VObj [(js "delta", VObj [(js "content", VBool true)])]])]) /\
  @appendChunkFromSseData literal_numbers (js "so far ")
    (jsq "{'choices':[{'delta':{'content':true}}]}") = js "so far true" /\
  @appendChunkFromSseData literal_numbers (js "so far ")
    (jsq "{'choices':[{'delta':{'content':true}}]}") <> js "so far ".
Proof.
  split; [vm_compute; reflexivity|].
  split; [vm_compute; reflexivity | vm_compute; discriminate].
Qed.

(** C3. When the sentinel is among the events of the text that the chunks
    carry, the read loop concludes with the text accumulated from the events
    strictly before the first sentinel, whatever the chunk boundaries and
    however the source would have ended; chunks that the source holds after
    that change nothing. *)
Theorem sentinel_ends_stream `{NumberSemantics}
  (chunks : list jstring) (ending : source_end) :
  In DONE (events (consumeSseEvents (concat chunks))) ->
  read_loop chunks ending [] [] =
    (Concluded,
     accumulate (before_done (events (consumeSseEvents (concat chunks)))) []) /\
  forall more ending',
    read_loop (chunks ++ more) ending' [] [] = read_loop chunks ending [] [].
Proof.
  intros Hin. apply has_done_In in Hin.
  assert (Hrun : forall cs e,
            has_done (events (consumeSseEvents (concat cs))) = true ->
            read_loop cs e [] [] =
            (Concluded,
             accumulate (before_done (events (consumeSseEvents (concat cs)))) [])).
  { intros cs e Hd. rewrite (read_loop_spec cs e [] [] eq_refl).
    cbn [app]. cbv zeta. rewrite Hd. reflexivity. }
  split; [apply Hrun, Hin|].
  intros more ending'.
  assert (Hev : events (consumeSseEvents (concat (chunks ++ more))) =
                events (consumeSseEvents (concat chunks)) ++
                events (consumeSseEvents
                          (buffer (consumeSseEvents (concat chunks)) ++ concat more))).
  { rewrite concat_app, consume_app. reflexivity. }
  rewrite (Hrun chunks ending Hin), Hrun.
  - rewrite Hev, before_done_app, Hin. reflexivity.
  - rewrite Hev, has_done_app, Hin. reflexivity.
Qed.

Lemma sentinel_ends_stream_witness :
  @read_loop literal_numbers [abc_stream] ReadFails [] [] = (Concluded, js "AB").
Proof.
  refine (eq_trans
            (proj1 (@sentinel_ends_stream literal_numbers [abc_stream] ReadFails _)) _).
  - vm_compute. auto.
  - vm_compute. reflexivity.
Defined.

(** C7. When the source ends without a sentinel having been met, the
    remaining buffer is framed with a blank line added; what it holds is one
    block, so a last event that no blank line followed is still extracted,
    and it is handled under the sentinel rule. An empty remaining buffer adds
    no event. *)
Theorem end_of_data_flush `{NumberSemantics} (chunks : list jstring) :
  ~ In DONE (events (consumeSseEvents (concat chunks))) ->
  read_loop chunks EndOfData [] [] =
    (Concluded,
     accumulate
       (before_done
          (events (consumeSseEvents
                     (buffer (consumeSseEvents (concat chunks)) ++ blank_line))))
       (accumulate (events (consumeSseEvents (concat chunks))) [])) /\
  events (consumeSseEvents
            (buffer (consumeSseEvents (concat chunks)) ++ blank_line)) =
    match filter is_data_line
            (split_lines (buffer (consumeSseEvents (concat chunks)))) with
    | [] => []
    | data_lines => [join_lines (map line_payload data_lines)]
    end /\
  (buffer (consumeSseEvents (concat chunks)) = [] ->
   read_loop chunks EndOfData [] [] =
     (Concluded, accumulate (events (consumeSseEvents (concat chunks))) [])).
Proof.
  intros Hno.
  assert (Hd : has_done (events (consumeSseEvents (concat chunks))) = false).
  { destruct (has_done _) eqn:E; [|reflexivity].
    apply has_done_In in E. contradiction. }
  assert (Hrun := read_loop_spec chunks EndOfData [] [] eq_refl).
  cbn [app] in Hrun. cbv zeta in Hrun. rewrite Hd in Hrun.
  split; [exact Hrun|]. split.
  - set (rem := buffer (consumeSseEvents (concat chunks))).
    assert (Hs : strip_cr rem = rem).
    { apply strip_cr_fixed. unfold rem, consumeSseEvents.
      apply remainder_no_cr, strip_cr_no_cr. }
    destruct (consume_terminated rem) as [Hev _].
    { rewrite Hs. unfold rem, consumeSseEvents. apply remainder_no_blank_line. }
    rewrite Hev, Hs. apply block_events_lines.
  - intros Hempty. rewrite Hrun, Hempty.
    change (events (consumeSseEvents ([] ++ blank_line)))
      with (events (consumeSseEvents blank_line)).
    replace (events (consumeSseEvents blank_line)) with (@nil jstring)
      by (vm_compute; reflexivity).
    reflexivity.
Qed.

Lemma end_of_data_flush_witness :
  @read_loop literal_numbers [unterminated_stream] EndOfData [] [] =
  (Concluded, js "AB").
Proof.
  refine (eq_trans
            (proj1 (@end_of_data_flush literal_numbers [unterminated_stream] _)) _).
  - vm_compute. intros [E|[]]. discriminate E.
  - vm_compute. reflexivity.
Defined.

(** ** Cycles and sessions *)

Section CycleFacts.
Context `{NumberSemantics}.

(** An accepted submission runs the three blocks in order. *)
Lemma sendMessage_accepted (w : selector) (net : fetch_outcome) (st : state) :
  trim (userInput_value st) <> [] -> isProcessing st = false ->
  sendMessage w net st =
  let '(st', exn, sent) :=
    try_block (getAgent w) net (start_cycle (trim (userInput_value st)) st) in
  (finally_block match exn with
                 | Some e => catch_block e st'
                 | None => st'
                 end,
   Some sent).
Proof.
  intros Hm Hp. unfold sendMessage.
  apply jstring_eqb_neq in Hm. rewrite Hm, Hp. reflexivity.
Qed.

Lemma sendMessage_rejected (w : selector) (net : fetch_outcome) (st : state) :
  trim (userInput_value st) = [] \/ isProcessing st = true ->
  sendMessage w net st = (st, None).
Proof.
  intros Hr. unfold sendMessage.
  destruct Hr as [Hr|Hr].
  - apply jstring_eqb_eq in Hr. rewrite Hr. reflexivity.
  - rewrite Hr, orb_true_r. reflexivity.
Qed.

(** The request carries the history as it stands after the user turn. *)
Lemma try_block_request (agent : jstring) (net : fetch_outcome) (st : state) :
  snd (try_block agent net st) = {| agent := agent; messages := chatHistory st |}.
Proof.
  unfold try_block. destruct net as [|r]; [reflexivity|].
  destruct (negb (ok r)); [reflexivity|].
  destruct (body r) as [b|]; [|reflexivity].
  destruct (read_loop (chunks b) (ending b) [] []) as [[|] text]; reflexivity.
Qed.

(** A cycle only ever appends to the history. *)
Lemma try_block_history (agent : jstring) (net : fetch_outcome) (st : state) :
  exists added,
    chatHistory (fst (fst (try_block agent net st))) = chatHistory st ++ added.
Proof.
  unfold try_block. destruct net as [|r]; [exists []; symmetry; apply app_nil_r|].
  destruct (negb (ok r)); [exists []; symmetry; apply app_nil_r|].
  destruct (body r) as [b|]; [|exists []; symmetry; apply app_nil_r].
  destruct (read_loop (chunks b) (ending b) [] []) as [[|] text];
    [|exists []; symmetry; apply app_nil_r].
  destruct (negb (jstring_eqb text [])).
  - eexists. reflexivity.
  - exists []. symmetry. apply app_nil_r.
Qed.

Lemma sendMessage_history (w : selector) (net : fetch_outcome) (st : state) :
  exists added,
    chatHistory (fst (sendMessage w net st)) = chatHistory st ++ added.
Proof.
  unfold sendMessage.
  destruct (jstring_eqb _ [] || isProcessing st);
    [exists []; symmetry; apply app_nil_r|].
  set (st1 := start_cycle _ st).
  destruct (try_block_history (getAgent w) net st1) as [added Ha].
  destruct (try_block (getAgent w) net st1) as [[st' exn] sent].
  cbn [fst] in *. exists ({| turn_role := user; content := trim (userInput_value st) |} :: added).
  destruct exn; cbn [finally_block catch_block chatHistory]; rewrite Ha;
    unfold st1; cbn [start_cycle chatHistory]; rewrite <- app_assoc; reflexivity.
Qed.

Lemma sendMessage_request (w : selector) (net : fetch_outcome) (st : state)
  (r : request) :
  snd (sendMessage w net st) = Some r ->
  exists message, messages r = chatHistory st ++ [{| turn_role := user; content := message |}].
Proof.
  unfold sendMessage.
  destruct (jstring_eqb _ [] || isProcessing st); [discriminate|].
  set (st1 := start_cycle _ st).
  pose proof (try_block_request (getAgent w) net st1) as Hr.
  destruct (try_block (getAgent w) net st1) as [[st' exn] sent].
  cbn [snd] in *. intros [= <-]. rewrite Hr. cbn [messages].
  eexists. reflexivity.
Qed.

(** Every request of a session, and the history it leaves, begin with the
    history the session started from. *)
Lemma session_prefix (acts : list interaction) (st : state) :
  (exists added, chatHistory (snd (session acts st)) = chatHistory st ++ added) /\
  Forall (fun r => exists added, messages r = chatHistory st ++ added)
         (fst (session acts st)).
Proof.
  revert st. induction acts as [|i acts IH]; intros st.
  - split; [exists []; symmetry; apply app_nil_r | constructor].
  - cbn [session]. unfold submit.
    pose proof (sendMessage_history (selected i) (net i) (with_input (typed i) st)) as Hh.
    pose proof (sendMessage_request (selected i) (net i) (with_input (typed i) st)) as Hr.
    destruct (sendMessage (selected i) (net i) (with_input (typed i) st)) as [st' sent].
    cbn [fst snd with_input chatHistory] in *.
    destruct Hh as [added Ha].
    destruct (IH st') as [[added' Hfin] Hreqs].
    destruct (session acts st') as [reqs final]. cbn [fst snd] in *.
    assert (Hreqs' : Forall (fun r => exists a, messages r = chatHistory st ++ a) reqs).
    { eapply Forall_impl; [|exact Hreqs]. intros r [a Hra].
      exists (added ++ a). rewrite Hra, Ha, app_assoc. reflexivity. }
    split.
    + exists (added ++ added'). rewrite Hfin, Ha, app_assoc. reflexivity.
    + destruct sent as [r|]; [|exact Hreqs'].
      constructor; [|exact Hreqs'].
      destruct (Hr r eq_refl) as [message Hm]. eexists. exact Hm.
Qed.

End CycleFacts.

(** C10. The history starts as the single assistant greeting. Through any
    session (any inputs, agents and network answers) the history keeps that
    greeting as its first turn, so it is never empty, and so does the
    [messages] list of every request sent. *)
Theorem history_begins_with_greeting `{NumberSemantics} :
  chatHistory initial_state = [greeting] /\
  turn_role greeting = assistant /\
  forall acts : list interaction,
    (exists rest, chatHistory (snd (session acts initial_state)) = greeting :: rest) /\
    Forall (fun r => exists rest, messages r = greeting :: rest)
           (fst (session acts initial_state)).
Proof.
  split; [reflexivity|]. split; [reflexivity|].
  intros acts. exact (session_prefix acts initial_state).
Qed.

(** C5. A cycle whose response has a failing status, or no body, leaves
    the [try] block by an exception before anything is read: the [catch]
    and [finally] blocks run on the state that the start of the cycle and
    the empty reply element left. The history has the user turn as its only
    addition; the pane shows the generic notice once, after the user message
    and the empty reply element; and the page ends idle: not processing,
    input and button enabled, indicator hidden. *)
Theorem failed_response_cycle `{NumberSemantics}
  (w : selector) (r : response) (st : state) :
  trim (userInput_value st) <> [] ->
  isProcessing st = false ->
  ok r = false \/ body r = None ->
  let st' := fst (sendMessage w (FetchResolved r) st) in
  (exists e badge,
     st' = finally_block
             (catch_block e
                (with_reply_element badge []
                   (start_cycle (trim (userInput_value st)) st)))) /\
  chatHistory st' =
    chatHistory st ++
    [{| turn_role := user; content := trim (userInput_value st) |}] /\
  (exists badge,
     chatMessages st' =
       chatMessages st ++
       [MarkupMessage (js "message user-message")
                      (js "<p>" ++ escapeHtml (trim (userInput_value st)) ++ js "</p>");
        StreamingMessage badge [];
        MarkupMessage (js "message assistant-message")
                      (js "<p>Sorry, there was an error processing your request.</p>")]) /\
  isProcessing st' = false /\
  userInput_disabled st' = false /\
  sendButton_disabled st' = false /\
  typingIndicator_visible st' = false.
Proof.
  intros Hm Hp Hfail st'. subst st'.
  rewrite (sendMessage_accepted w _ st Hm Hp).
  assert (Hthrown : exists e badge,
            fst (try_block (getAgent w) (FetchResolved r)
                   (start_cycle (trim (userInput_value st)) st)) =
            (with_reply_element badge []
               (start_cycle (trim (userInput_value st)) st), Some e)).
  { unfold try_block. destruct (ok r) eqn:Hok; cbn [negb].
    - destruct Hfail as [Hf|Hb]; [discriminate|]. rewrite Hb.
      do 2 eexists. reflexivity.
    - do 2 eexists. reflexivity. }
  destruct Hthrown as [e [badge He]].
  destruct (try_block _ _ _) as [[st1 exn] sent]. cbn [fst] in He.
  injection He as -> ->. cbn [fst].
  split; [exists e, badge; reflexivity|].
  split; [reflexivity|]. split; [|repeat split].
  exists badge. cbn [finally_block catch_block with_reply_element start_cycle chatMessages].
  unfold addMessageToChat. rewrite <- !app_assoc. reflexivity.
Qed.

Lemma failed_response_cycle_witness :
  chatHistory (fst (@sendMessage literal_numbers NoSelector
                      (FetchResolved error_response) typed_hello)) =
  [greeting; {| turn_role := user; content := js "hello" |}].
Proof.
  refine (proj1 (proj2 (@failed_response_cycle literal_numbers NoSelector
                          error_response typed_hello _ _ _))).
  - vm_compute. discriminate.
  - reflexivity.
  - left. reflexivity.
Defined.

(** C6. A cycle that concludes cleanly (a successful response with a
    body, read to the sentinel or to the end of the data) appends exactly
    one assistant turn holding the accumulated text when that text is not
    empty, and nothing besides the user turn when it is empty. *)
Theorem clean_conclusion_history `{NumberSemantics}
  (w : selector) (r : response) (b : body_stream) (responseText : jstring)
  (st : state) :
  trim (userInput_value st) <> [] ->
  isProcessing st = false ->
  ok r = true -> body r = Some b ->
  read_loop (chunks b) (ending b) [] [] = (Concluded, responseText) ->
  let st' := fst (sendMessage w (FetchResolved r) st) in
  let asked := {| turn_role := user; content := trim (userInput_value st) |} in
  (responseText <> [] ->
   chatHistory st' =
     chatHistory st ++
     [asked; {| turn_role := assistant; content := responseText |}]) /\
  (responseText = [] -> chatHistory st' = chatHistory st ++ [asked]).
Proof.
  intros Hm Hp Hok Hb Hread st' asked. subst st' asked.
  rewrite (sendMessage_accepted w _ st Hm Hp).
  unfold try_block. rewrite Hok, Hb, Hread. cbn [negb fst].
  split; intros Ht.
  - apply jstring_eqb_neq in Ht. rewrite Ht. cbn. rewrite <- app_assoc. reflexivity.
  - apply jstring_eqb_eq in Ht. rewrite Ht. reflexivity.
Qed.

Lemma clean_conclusion_history_witness :
  chatHistory (fst (@sendMessage literal_numbers NoSelector
                      (FetchResolved (ok_response [abc_stream])) typed_hello)) =
  [greeting; {| turn_role := user; content := js "hello" |};
   {| turn_role := assistant; content := js "AB" |}].
Proof.
  refine (proj1 (@clean_conclusion_history literal_numbers NoSelector
                   (ok_response [abc_stream])
                   {| chunks := [abc_stream]; ending := EndOfData |}
                   (js "AB") typed_hello _ _ _ _ _) _).
  - vm_compute. discriminate.
  - reflexivity.
  - reflexivity.
  - reflexivity.
  - vm_compute. reflexivity.
  - discriminate.
Defined.

(** * Further properties of the code *)

(** ** The framer as a cutter of blocks *)

Section BlockFacts.

Lemma startsWith_app_l (s t p : jstring) :
  startsWith s p = true -> startsWith (s ++ t) p = true.
Proof.
  intros Hp. rewrite startsWith_app_long; [exact Hp|].
  apply startsWith_length, Hp.
Qed.

Lemma indexOf_unique (s p : jstring) (i j : nat) :
  indexOf s p = Some i -> indexOf s p = Some j -> i = j.
Proof. intros Hi Hj. rewrite Hi in Hj. injection Hj as <-. reflexivity. Qed.

(** The text before the first blank line holds no blank line. *)
Lemma first_block_whole (s : jstring) (i : nat) :
  indexOf s blank_line = Some i -> indexOf (firstn i s) blank_line = None.
Proof.
  intros Hi. destruct (indexOf (firstn i s) blank_line) as [j|] eqn:Hj;
    [exfalso | reflexivity].
  pose proof (indexOf_bound _ _ _ Hj) as Hb.
  pose proof (firstn_le_length i s) as Hl. cbn [blank_line length] in Hb.
  apply (indexOf_app _ (skipn i s)) in Hj. rewrite firstn_skipn in Hj.
  pose proof (indexOf_unique _ _ _ _ Hi Hj). lia.
Qed.

Lemma cut_at_blank_line (s : jstring) (i : nat) :
  indexOf s blank_line = Some i ->
  s = firstn i s ++ blank_line ++ skipn (i + 2) s.
Proof.
  intros Hi. pose proof (indexOf_found _ _ _ Hi) as Hf.
  apply startsWith_split in Hf. cbn [blank_line length] in Hf.
  rewrite skipn_skipn, (Nat.add_comm 2 i) in Hf. rewrite <- Hf.
  symmetry. apply firstn_skipn.
Qed.

Lemma frame_loop_blocks (s : jstring) :
  exists blocks,
    s = concat (map (fun b => b ++ blank_line) blocks) ++ buffer (frame_loop s) /\
    events (frame_loop s) = flat_map block_events blocks /\
    Forall (fun b => indexOf b blank_line = None) blocks.
Proof.
  funelim (frame_loop s).
  - match goal with IH : exists _, _ |- _ => destruct IH as [blocks [Hs [He Hb]]] end.
    exists (slice_to normalized eventEndIndex :: blocks).
    cbn [map concat flat_map events buffer]. split; [|split].
    + rewrite <- !app_assoc, <- Hs. apply cut_at_blank_line, Hidx.
    + rewrite He. reflexivity.
    + constructor; [apply first_block_whole, Hidx | exact Hb].
  - exists []. cbn. repeat split. constructor.
Qed.

End BlockFacts.

(** X1. [consumeSseEvents] cuts the normalized text at its blank lines: the
    text is the cut blocks, each followed by its blank line, and then the
    remainder; no block holds a blank line; the events are those of the
    blocks, in order, so none is emitted twice; and the remainder holds
    neither a blank line nor a carriage return, so no part of an
    unfinished block is emitted. *)
Theorem framer_cuts_complete_blocks (text : jstring) :
  exists blocks,
    strip_cr text =
      concat (map (fun b => b ++ blank_line) blocks) ++
      buffer (consumeSseEvents text) /\
    events (consumeSseEvents text) = flat_map block_events blocks /\
    Forall (fun b => indexOf b blank_line = None) blocks /\
    indexOf (buffer (consumeSseEvents text)) blank_line = None /\
    no_cr (buffer (consumeSseEvents text)).
Proof.
  unfold consumeSseEvents.
  destruct (frame_loop_blocks (strip_cr text)) as [blocks [Hs [He Hb]]].
  exists blocks. split; [exact Hs|]. split; [exact He|]. split; [exact Hb|].
  split; [apply remainder_no_blank_line | apply remainder_no_cr, strip_cr_no_cr].
Qed.

Section LineEndingFacts.

Lemma strip_cr_to_crlf (t : jstring) : no_cr t -> strip_cr (to_crlf t) = t.
Proof.
  induction 1 as [|c t Hc _ IH]; [reflexivity|].
  unfold to_crlf, replace_all in *. cbn [flat_map].
  rewrite strip_cr_app, IH. f_equal.
  destruct (N.eqb c LF) eqn:E.
  - apply N.eqb_eq in E. subst. reflexivity.
  - unfold strip_cr, replace_all. cbn [flat_map].
    apply N.eqb_neq in Hc. rewrite Hc. reflexivity.
Qed.

Lemma single_data_line_event (line : jstring) :
  is_data_line line = true -> single_line line ->
  events (consumeSseEvents (line ++ blank_line)) = [line_payload line].
Proof.
  intros Hd Hl.
  pose proof (strip_cr_fixed _ (single_line_no_cr _ Hl)) as Hs.
  destruct (consume_terminated line) as [Hev _].
  { rewrite Hs. apply single_line_no_blank, Hl. }
  rewrite Hev, Hs. unfold block_events, dataLines.
  rewrite (single_line_split _ Hl). cbn [filter]. rewrite Hd. reflexivity.
Qed.

Lemma trimStart_app_ws (ws p : jstring) :
  forallb is_white_space ws = true -> trimStart (ws ++ p) = trimStart p.
Proof.
  induction ws as [|c ws IH]; [reflexivity|].
  cbn [forallb app trimStart]. intros Hw. apply andb_prop in Hw as [Hc Hw].
  rewrite Hc. apply IH, Hw.
Qed.

End LineEndingFacts.

(** X2. A stream written with carriage return and newline as its line
    ending is framed exactly as the same stream written with newlines. *)
Theorem crlf_framed_as_lf (t : jstring) :
  no_cr t -> consumeSseEvents (to_crlf t) = consumeSseEvents t.
Proof.
  intros Ht. unfold consumeSseEvents.
  rewrite (strip_cr_to_crlf _ Ht), (strip_cr_fixed _ Ht). reflexivity.
Qed.

Lemma crlf_framed_as_lf_witness :
  consumeSseEvents (to_crlf (sse_event (js "one") ++ js "data: tw")) =
  consumeSseEvents (sse_event (js "one") ++ js "data: tw").
Proof.
  apply (crlf_framed_as_lf (sse_event (js "one") ++ js "data: tw")).
  repeat constructor; discriminate.
Defined.

(** X3. The white space between the [data:] prefix and the payload does
    not count: whatever run of white space stands there, the event is the
    payload without leading white space. So the sentinel written with any
    spacing after the prefix ends the stream at once, whatever follows. *)
Theorem payload_spacing_ignored `{NumberSemantics} (ws p : jstring) :
  forallb is_white_space ws = true ->
  single_line (ws ++ p) ->
  events (consumeSseEvents (data_prefix ++ ws ++ p ++ blank_line)) = [trimStart p] /\
  (trimStart p = DONE ->
   forall later ending,
     read_loop ((data_prefix ++ ws ++ p ++ blank_line) :: later) ending [] [] =
     (Concluded, [])).
Proof.
  intros Hw Hl.
  assert (Hev : events (consumeSseEvents (data_prefix ++ ws ++ p ++ blank_line)) =
                [trimStart p]).
  { replace (data_prefix ++ ws ++ p ++ blank_line)
      with ((data_prefix ++ ws ++ p) ++ blank_line)
      by (rewrite <- !app_assoc; reflexivity).
    rewrite single_data_line_event.
    - unfold line_payload, slice_from. rewrite skipn_app, skipn_all, Nat.sub_diag.
      cbn [skipn app]. rewrite (trimStart_app_ws _ _ Hw). reflexivity.
    - apply startsWith_prefix.
    - apply Forall_app. split; [|exact Hl].
      repeat constructor; discriminate. }
  split; [exact Hev|].
  intros Hd later ending. cbn [read_loop app]. rewrite Hev, Hd.
  reflexivity.
Qed.

Lemma payload_spacing_ignored_witness :
  events (consumeSseEvents (data_prefix ++ js "   " ++ js "[DONE]" ++ blank_line)) =
  [js "[DONE]"].
Proof.
  refine (proj1 (@payload_spacing_ignored literal_numbers (js "   ") (js "[DONE]") _ _)).
  - reflexivity.
  - repeat constructor; discriminate.
Defined.

(** ** Deltas *)

Section DeltaFacts.
Context `{NumberSemantics}.

Lemma try_append_from_empty (text data : jstring) :
  try_append text data =
  match try_append [] data with
  | Some delta => Some (text ++ delta)
  | None => None
  end.
Proof.
  unfold try_append. destruct (JSON_parse data) as [v|]; [|reflexivity].
  destruct (extract_content v) as [c|]; [|reflexivity].
  destruct (truthy c); [|rewrite app_nil_r; reflexivity].
  destruct (ToString c); reflexivity.
Qed.

Lemma append_from_empty (text data : jstring) :
  appendChunkFromSseData text data = text ++ appendChunkFromSseData [] data.
Proof.
  unfold appendChunkFromSseData. rewrite try_append_from_empty.
  destruct (try_append [] data); [reflexivity | symmetry; apply app_nil_r].
Qed.

Lemma accumulate_from_empty (evs : list jstring) (text : jstring) :
  accumulate evs text = text ++ accumulate evs [].
Proof.
  revert text. induction evs as [|data evs IH]; intros text.
  - symmetry. apply app_nil_r.
  - unfold accumulate in *. cbn [fold_left].
    rewrite IH, (IH (appendChunkFromSseData [] data)), append_from_empty.
    symmetry. apply app_assoc.
Qed.

(** A value that is not an object offers neither field. *)
Lemma primitive_offers_nothing (v : value) :
  (forall props, v <> VObj props) ->
  forall content, extract_content v = Some content -> truthy content = false.
Proof.
  intros Hv content. unfold extract_content, nested_content.
  destruct v as [| |b|n|s|l|props]; try discriminate;
    try (cbn; intros [= <-]; reflexivity).
  exfalso. apply (Hv props). reflexivity.
Qed.

End DeltaFacts.

(** X4. Handling an event never takes back text already accumulated, and
    what it adds depends on the event alone: the new text is the old text
    followed by the delta that the event gives from an empty text. The same
    holds for a whole list of events. *)
Theorem deltas_only_append `{NumberSemantics} :
  (forall text data,
     appendChunkFromSseData text data = text ++ appendChunkFromSseData [] data) /\
  (forall evs text, accumulate evs text = text ++ accumulate evs []).
Proof. split; [exact append_from_empty | exact accumulate_from_empty]. Qed.

(** X5. Only a payload that parses to a JSON object can add text: a
    payload that is valid JSON of another kind (null, a boolean, a number,
    a string, an array) leaves the accumulated text as it is. *)
Theorem only_objects_give_deltas `{NumberSemantics} (text data : jstring) :
  (forall props, JSON_parse data <> Some (VObj props)) ->
  appendChunkFromSseData text data = text.
Proof.
  intros Hno. unfold appendChunkFromSseData, try_append.
  destruct (JSON_parse data) as [v|] eqn:Hp; [|reflexivity].
  destruct (extract_content v) as [c|] eqn:Hc; [|reflexivity].
  rewrite (primitive_offers_nothing v); [reflexivity | | exact Hc].
  intros props ->. apply (Hno props). reflexivity.
Qed.

Lemma only_objects_give_deltas_witness :
  @appendChunkFromSseData literal_numbers (js "so far")
    (jsq "[{'response':'Hi'}]") = js "so far".
Proof.
  apply (@only_objects_give_deltas literal_numbers (js "so far")
           (jsq "[{'response':'Hi'}]")).
  intros props. vm_compute. discriminate.
Defined.

(** X6. The nested field is tested for truthiness only, not for being a
    string: when the direct field gives nothing and
    [choices[0].delta.content] is any truthy value, its string form is
    appended (a boolean as [true], an array as its elements joined by
    commas), and nothing is appended when the conversion throws: for an
    object with an own [toString] property, and for arrays nested deeper
    than the engine converts. *)
Theorem nested_content_is_coerced `{NumberSemantics}
  (text data : jstring) (v r : value) :
  JSON_parse data = Some v ->
  Get v (js "response") = Some r -> nonempty_string r = false ->
  truthy (nested_content v) = true ->
  appendChunkFromSseData text data =
  match ToString (nested_content v) with
  | Some s => text ++ s
  | None => text
  end.
Proof. apply append_nested. Qed.

Lemma nested_content_is_coerced_witness :
  @appendChunkFromSseData literal_numbers (js "so far ")
    (jsq "{'choices':[{'delta':{'content':[true,'x',null]}}]}") =
  js "so far true,x,".
Proof.
  refine (eq_trans
            (@nested_content_is_coerced literal_numbers (js "so far ")
               (jsq "{'choices':[{'delta':{'content':[true,'x',null]}}]}")
               (VObj [(js "choices",
                       VArr [VObj [(js "delta",
                                    VObj [(js "content",
                                           VArr [VBool true; VStr (js "x"); VNull])])]])])
               VUndefined _ _ _ _) _).
  - vm_compute. reflexivity.
  - vm_compute. reflexivity.
  - reflexivity.
  - reflexivity.
  - vm_compute. reflexivity.
Defined.

(** X7. The accumulated text and the way the read loop ends do not depend
    on where the transport cuts the stream: two chunkings of the same text,
    with the same ending, give the same result. *)
Theorem read_loop_ignores_chunking `{NumberSemantics}
  (chunks1 chunks2 : list jstring) (ending : source_end) :
  concat chunks1 = concat chunks2 ->
  read_loop chunks1 ending [] [] = read_loop chunks2 ending [] [].
Proof.
  intros Hc.
  rewrite (read_loop_spec chunks1 ending [] [] eq_refl),
          (read_loop_spec chunks2 ending [] [] eq_refl).
  cbn [app]. rewrite Hc. reflexivity.
Qed.

Lemma read_loop_ignores_chunking_witness :
  @read_loop literal_numbers
    [js "da"; js "ta: " ++ jsq "{'response':'A'}" ++ [LF]; [LF] ++ js "data: [DONE]" ++ [LF]; [LF]]
    ReadFails [] [] =
  @read_loop literal_numbers
    [sse_event (jsq "{'response':'A'}") ++ sse_event (js "[DONE]")]
    ReadFails [] [].
Proof.
  apply (@read_loop_ignores_chunking literal_numbers). reflexivity.
Defined.

(** ** Escaping, further *)

Section EscapeShape.

Lemma entity_of_table (c : code_unit) :
  (c = 38%N /\ entity_of c = [38; 97; 109; 112; 59]%N) \/
  (c = 60%N /\ entity_of c = [38; 108; 116; 59]%N) \/
  (c = 62%N /\ entity_of c = [38; 103; 116; 59]%N) \/
  (c = 34%N /\ entity_of c = [38; 113; 117; 111; 116; 59]%N) \/
  (c = 39%N /\ entity_of c = [38; 35; 48; 51; 57; 59]%N) \/
  (is_escaped_char c = false /\ entity_of c = [c]).
Proof.
  unfold entity_of, is_escaped_char, is_markup_char.
  destruct (N.eqb c 38) eqn:E38; [apply N.eqb_eq in E38; auto|].
  destruct (N.eqb c 60) eqn:E60; [apply N.eqb_eq in E60; auto|].
  destruct (N.eqb c 62) eqn:E62; [apply N.eqb_eq in E62; auto 6|].
  destruct (N.eqb c 34) eqn:E34; [apply N.eqb_eq in E34; auto 7|].
  destruct (N.eqb c 39) eqn:E39; [apply N.eqb_eq in E39; auto 8|].
  auto 10.
Qed.

Lemma escapeHtml_longer (s : jstring) : length s <= length (escapeHtml s).
Proof.
  induction s as [|c s IH]; [apply le_n|].
  rewrite escapeHtml_cons, length_app. cbn [length].
  destruct (entity_of_table c) as [[_ ->]|[[_ ->]|[[_ ->]|[[_ ->]|[[_ ->]|[_ ->]]]]]];
    cbn [length]; lia.
Qed.

Lemma escapeHtml_injective (s1 s2 : jstring) :
  escapeHtml s1 = escapeHtml s2 -> s1 = s2.
Proof.
  revert s2. induction s1 as [|c1 t1 IH]; intros [|c2 t2] E.
  - reflexivity.
  - rewrite escapeHtml_cons in E. exfalso.
    destruct (entity_of_table c2) as [[_ E2]|[[_ E2]|[[_ E2]|[[_ E2]|[[_ E2]|[_ E2]]]]]];
      rewrite E2 in E; discriminate E.
  - rewrite escapeHtml_cons in E. exfalso.
    destruct (entity_of_table c1) as [[_ E1]|[[_ E1]|[[_ E1]|[[_ E1]|[[_ E1]|[_ E1]]]]]];
      rewrite E1 in E; discriminate E.
  - rewrite !escapeHtml_cons in E.
    destruct (entity_of_table c1) as [[-> E1]|[[-> E1]|[[-> E1]|[[-> E1]|[[-> E1]|[N1 E1]]]]]];
    destruct (entity_of_table c2) as [[-> E2]|[[-> E2]|[[-> E2]|[[-> E2]|[[-> E2]|[N2 E2]]]]]];
      rewrite ?E1, ?E2 in E; cbn [app] in E;
      try discriminate E;
      try (injection E as E; f_equal; apply IH; exact E);
      try (injection E as <- E; f_equal; apply IH; exact E);
      try (injection E as -> _; discriminate N1);
      try (injection E as <- _; discriminate N2).
Qed.

Lemma escapeHtml_plain (s : jstring) :
  forallb (fun c => negb (is_escaped_char c)) s = true -> escapeHtml s = s.
Proof.
  induction s as [|c s IH]; [reflexivity|].
  cbn [forallb]. intros Hs. apply andb_prop in Hs as [Hc Hs].
  rewrite escapeHtml_cons, (IH Hs).
  destruct (entity_of_table c) as [[-> _]|[[-> _]|[[-> _]|[[-> _]|[[-> _]|[_ ->]]]]]];
    try discriminate Hc. reflexivity.
Qed.

Lemma escapeHtml_fixed_plain (s : jstring) :
  escapeHtml s = s -> forallb (fun c => negb (is_escaped_char c)) s = true.
Proof.
  induction s as [|c s IH]; [reflexivity|].
  rewrite escapeHtml_cons. intros E. cbn [forallb].
  pose proof (escapeHtml_longer s) as Hl.
  pose proof (f_equal (@length code_unit) E) as El.
  rewrite length_app in El. cbn [length] in El.
  destruct (entity_of_table c) as [[_ E1]|[[_ E1]|[[_ E1]|[[_ E1]|[[_ E1]|[N1 E1]]]]]];
    rewrite E1 in *; cbn [length] in El; try lia.
  rewrite N1. cbn [negb andb]. apply IH.
  cbn [app] in E. injection E as E. exact E.
Qed.

End EscapeShape.

(** X8. [escapeHtml] loses nothing: two different messages never give the
    same markup. *)
Theorem escapeHtml_distinguishes (s1 s2 : jstring) :
  escapeHtml s1 = escapeHtml s2 <-> s1 = s2.
Proof.
  split; [apply escapeHtml_injective | intros ->; reflexivity].
Qed.

(** X9. [escapeHtml] returns a message unchanged exactly when the message
    holds none of the five characters; it never shortens a message, and it
    escapes a concatenation piece by piece. *)
Theorem escapeHtml_fixed_points :
  (forall s, escapeHtml s = s <->
             forallb (fun c => negb (is_escaped_char c)) s = true) /\
  (forall s, length s <= length (escapeHtml s)) /\
  (forall a b, escapeHtml (a ++ b) = escapeHtml a ++ escapeHtml b).
Proof.
  split; [|split; [exact escapeHtml_longer | exact escapeHtml_app]].
  intros s. split; [apply escapeHtml_fixed_plain | apply escapeHtml_plain].
Qed.

(** ** Submissions *)

Section TrimFacts.

Lemma trimStart_fixed (s : jstring) :
  match s with [] => True | c :: _ => is_white_space c = false end ->
  trimStart s = s.
Proof.
  destruct s as [|c s]; [reflexivity|]. cbn [trimStart]. intros ->. reflexivity.
Qed.

Lemma trimStart_snoc (a : jstring) (c : code_unit) :
  is_white_space c = false -> trimStart (a ++ [c]) = trimStart a ++ [c].
Proof.
  intros Hc. induction a as [|x a IH]; cbn [app trimStart].
  - rewrite Hc. reflexivity.
  - destruct (is_white_space x); [exact IH | reflexivity].
Qed.

Lemma trimEnd_head (c : code_unit) (s : jstring) :
  is_white_space c = false ->
  trimEnd (c :: s) = c :: rev (trimStart (rev s)).
Proof.
  intros Hc. unfold trimEnd. cbn [rev].
  rewrite (trimStart_snoc _ _ Hc), rev_app_distr. reflexivity.
Qed.

Lemma trimStart_white (s : jstring) :
  forallb is_white_space s = true -> trimStart s = [].
Proof.
  intros Hs. rewrite <- (app_nil_r s). apply (trimStart_app_ws s [] Hs).
Qed.

Lemma trim_empty_iff (s : jstring) :
  trim s = [] <-> forallb is_white_space s = true.
Proof.
  unfold trim. split.
  - intros Ht. destruct (trimStart_split s) as [ws [Hws Hs]].
    pose proof (trimStart_head s) as Hh.
    destruct (trimStart s) as [|c t].
    + rewrite app_nil_r in Hs. subst. exact Hws.
    + rewrite (trimEnd_head _ _ Hh) in Ht. discriminate Ht.
  - intros Hs. rewrite (trimStart_white _ Hs). reflexivity.
Qed.

Lemma trim_idempotent (s : jstring) : trim (trim s) = trim s.
Proof.
  unfold trim. pose proof (trimStart_head s) as Hh.
  destruct (trimStart s) as [|c t]; [reflexivity|].
  rewrite (trimEnd_head _ _ Hh). cbn [trimStart]. rewrite Hh.
  rewrite (trimEnd_head _ _ Hh). f_equal.
  rewrite rev_involutive. f_equal.
  apply trimStart_fixed. apply trimStart_head.
Qed.

End TrimFacts.

Section SubmissionFacts.
Context `{NumberSemantics}.

Lemma getAgent_nonempty (w : selector) : getAgent w <> [].
Proof.
  destruct w as [| |a]; try discriminate. cbn [getAgent].
  destruct (jstring_eqb a []) eqn:E; [discriminate|].
  apply jstring_eqb_neq, E.
Qed.

(** What the [try] block leaves in the history: nothing, or one assistant
    turn that is not empty. *)
Lemma try_block_history_cases (agent : jstring) (net : fetch_outcome) (st : state) :
  chatHistory (fst (fst (try_block agent net st))) = chatHistory st \/
  exists responseText,
    responseText <> [] /\
    snd (fst (try_block agent net st)) = None /\
    chatHistory (fst (fst (try_block agent net st))) =
    chatHistory st ++ [{| turn_role := assistant; content := responseText |}].
Proof.
  unfold try_block. destruct net as [|r]; [left; reflexivity|].
  destruct (negb (ok r)); [left; reflexivity|].
  destruct (body r) as [b|]; [|left; reflexivity].
  destruct (read_loop (chunks b) (ending b) [] []) as [[|] text];
    [|left; reflexivity].
  destruct (jstring_eqb text []) eqn:E; cbn [negb]; [left; reflexivity|].
  right. exists text. apply jstring_eqb_neq in E. repeat split. exact E.
Qed.

(** The state after an accepted submission, field by field. *)
Lemma sendMessage_fields (w : selector) (net : fetch_outcome) (st : state) :
  trim (userInput_value st) <> [] -> isProcessing st = false ->
  let st' := fst (sendMessage w net st) in
  isProcessing st' = false /\ userInput_disabled st' = false /\
  sendButton_disabled st' = false /\ typingIndicator_visible st' = false /\
  userInput_value st' = [].
Proof.
  intros Hm Hp. cbv zeta. rewrite (sendMessage_accepted w net st Hm Hp).
  unfold try_block. destruct net as [|r]; [repeat split|].
  destruct (negb (ok r)); [repeat split|].
  destruct (body r) as [b|]; [|repeat split].
  destruct (read_loop (chunks b) (ending b) [] []) as [[|] text];
    [|repeat split].
  destruct (negb (jstring_eqb text [])); repeat split.
Qed.

End SubmissionFacts.

(** X10. The guard of [sendMessage]: a submission whose input is empty or
    white space only, or made while a cycle is in flight, changes nothing
    and sends nothing; any other submission sends a request. *)
Theorem submission_guard `{NumberSemantics}
  (w : selector) (net : fetch_outcome) (st : state) :
  (forallb is_white_space (userInput_value st) = true \/ isProcessing st = true ->
   sendMessage w net st = (st, None)) /\
  (forallb is_white_space (userInput_value st) = false ->
   isProcessing st = false ->
   snd (sendMessage w net st) =
   Some {| agent := getAgent w;
           messages := chatHistory st ++
                       [{| turn_role := user;
                           content := trim (userInput_value st) |}] |}).
Proof.
  split.
  - intros [Hw|Hp]; apply sendMessage_rejected; [left | right; exact Hp].
    apply trim_empty_iff, Hw.
  - intros Hw Hp.
    assert (Hm : trim (userInput_value st) <> []).
    { intros E. apply trim_empty_iff in E. rewrite E in Hw. discriminate. }
    rewrite (sendMessage_accepted w net st Hm Hp).
    pose proof (try_block_request (getAgent w) net
                  (start_cycle (trim (userInput_value st)) st)) as Hr.
    destruct (try_block _ _ _) as [[st1 exn] sent]. cbn [snd] in *.
    rewrite Hr. reflexivity.
Qed.

(** X11. Whatever the network does, an accepted submission ends with the
    page idle and the input cleared: not processing, input and button
    enabled, indicator hidden. The agent it sent is never the empty
    string. *)
Theorem every_cycle_ends_idle `{NumberSemantics}
  (w : selector) (net : fetch_outcome) (st : state) :
  trim (userInput_value st) <> [] ->
  isProcessing st = false ->
  let st' := fst (sendMessage w net st) in
  isProcessing st' = false /\
  userInput_disabled st' = false /\
  sendButton_disabled st' = false /\
  typingIndicator_visible st' = false /\
  userInput_value st' = [] /\
  exists r, snd (sendMessage w net st) = Some r /\ agent r <> [].
Proof.
  intros Hm Hp st'. subst st'.
  destruct (sendMessage_fields w net st Hm Hp) as [H1 [H2 [H3 [H4 H5]]]].
  repeat (split; [assumption|]).
  rewrite (sendMessage_accepted w net st Hm Hp).
  pose proof (try_block_request (getAgent w) net
                (start_cycle (trim (userInput_value st)) st)) as Hr.
  destruct (try_block _ _ _) as [[st1 exn] sent]. cbn [snd] in *.
  exists sent. split; [reflexivity|]. rewrite Hr. apply getAgent_nonempty.
Qed.

Lemma every_cycle_ends_idle_witness :
  isProcessing (fst (@sendMessage literal_numbers (Selected [])
                       FetchRejected typed_hello)) = false.
Proof.
  refine (proj1 (@every_cycle_ends_idle literal_numbers (Selected [])
                   FetchRejected typed_hello _ _)).
  - vm_compute. discriminate.
  - reflexivity.
Defined.

(** X12. When a read fails before any sentinel was met, the text
    accumulated so far stays in the reply element but is not recorded: the
    history gains the user turn only, the generic notice follows the partial
    reply, and the failure is logged. *)
Theorem read_failure_cycle `{NumberSemantics}
  (w : selector) (r : response) (b : body_stream) (st : state) :
  trim (userInput_value st) <> [] ->
  isProcessing st = false ->
  ok r = true -> body r = Some b -> ending b = ReadFails ->
  ~ In DONE (events (consumeSseEvents (concat (chunks b)))) ->
  let st' := fst (sendMessage w (FetchResolved r) st) in
  let shown := accumulate (events (consumeSseEvents (concat (chunks b)))) [] in
  chatHistory st' =
    chatHistory st ++
    [{| turn_role := user; content := trim (userInput_value st) |}] /\
  chatMessages st' =
    addMessageToChat assistant error_notice
      (addMessageToChat user (trim (userInput_value st)) (chatMessages st) ++
       [StreamingMessage
          (if jstring_eqb (getAgent w) (js "cf") then js "Cloudflare" else js "Azure")
          shown]) /\
  console st' = console st ++ [ErrRead].
Proof.
  intros Hm Hp Hok Hb He Hno st' shown. subst st' shown.
  rewrite (sendMessage_accepted w _ st Hm Hp).
  unfold try_block. rewrite Hok, Hb. cbn [negb].
  rewrite (read_loop_spec (chunks b) (ending b) [] [] eq_refl).
  cbn [app]. cbv zeta.
  assert (Hd : has_done (events (consumeSseEvents (concat (chunks b)))) = false).
  { destruct (has_done _) eqn:E; [|reflexivity].
    apply has_done_In in E. contradiction. }
  rewrite Hd, He. cbn. repeat split.
Qed.

Lemma read_failure_cycle_witness :
  chatHistory
    (fst (@sendMessage literal_numbers NoSelector
            (FetchResolved
               {| ok := true; status := 200%N; text := None;
                  body := Some {| chunks := [sse_event (jsq "{'response':'A'}")];
                                  ending := ReadFails |} |})
            typed_hello)) =
  [greeting; {| turn_role := user; content := js "hello" |}].
Proof.
  refine (proj1 (@read_failure_cycle literal_numbers NoSelector
                   {| ok := true; status := 200%N; text := None;
                      body := Some {| chunks := [sse_event (jsq "{'response':'A'}")];
                                      ending := ReadFails |} |}
                   {| chunks := [sse_event (jsq "{'response':'A'}")];
                      ending := ReadFails |}
                   typed_hello _ _ _ _ _ _)).
  - vm_compute. discriminate.
  - reflexivity.
  - reflexivity.
  - reflexivity.
  - reflexivity.
  - vm_compute. intros [E|[]]. discriminate E.
Defined.

(** X13. When [fetch] itself rejects, the request has still been sent with
    the user turn in it; the history keeps that turn and gains no reply,
    the empty reply element is followed by the generic notice, and the
    failure is logged. *)
Theorem rejected_fetch_cycle `{NumberSemantics} (w : selector) (st : state) :
  trim (userInput_value st) <> [] ->
  isProcessing st = false ->
  let asked := {| turn_role := user; content := trim (userInput_value st) |} in
  let st' := fst (sendMessage w FetchRejected st) in
  snd (sendMessage w FetchRejected st) =
    Some {| agent := getAgent w; messages := chatHistory st ++ [asked] |} /\
  chatHistory st' = chatHistory st ++ [asked] /\
  chatMessages st' =
    addMessageToChat assistant error_notice
      (addMessageToChat user (trim (userInput_value st)) (chatMessages st) ++
       [StreamingMessage
          (if jstring_eqb (getAgent w) (js "cf") then js "Cloudflare" else js "Azure")
          []]) /\
  console st' = console st ++ [ErrFetch].
Proof.
  intros Hm Hp asked st'. subst asked st'.
  rewrite (sendMessage_accepted w _ st Hm Hp). cbn. repeat split.
Qed.

Lemma rejected_fetch_cycle_witness :
  console (fst (@sendMessage literal_numbers NoSelector FetchRejected typed_hello)) =
  [ErrFetch].
Proof.
  refine (proj2 (proj2 (proj2 (@rejected_fetch_cycle literal_numbers NoSelector
                                 typed_hello _ _)))).
  - vm_compute. discriminate.
  - reflexivity.
Defined.

(** X14. A cycle that concludes cleanly shows no notice and logs nothing:
    the pane gains the user message and the reply element, and the reply
    element holds exactly the accumulated text, the text that the history
    records when it is not empty. *)
Theorem clean_cycle_display `{NumberSemantics}
  (w : selector) (r : response) (b : body_stream) (responseText : jstring)
  (st : state) :
  trim (userInput_value st) <> [] ->
  isProcessing st = false ->
  ok r = true -> body r = Some b ->
  read_loop (chunks b) (ending b) [] [] = (Concluded, responseText) ->
  let st' := fst (sendMessage w (FetchResolved r) st) in
  chatMessages st' =
    addMessageToChat user (trim (userInput_value st)) (chatMessages st) ++
    [StreamingMessage
       (if jstring_eqb (getAgent w) (js "cf") then js "Cloudflare" else js "Azure")
       responseText] /\
  console st' = console st.
Proof.
  intros Hm Hp Hok Hb Hread st'. subst st'.
  rewrite (sendMessage_accepted w _ st Hm Hp).
  unfold try_block. rewrite Hok, Hb, Hread. cbn [negb fst].
  destruct (negb (jstring_eqb responseText [])); split; reflexivity.
Qed.

Lemma clean_cycle_display_witness :
  chatMessages
    (fst (@sendMessage literal_numbers (Selected (js "cf"))
            (FetchResolved (ok_response [abc_stream])) typed_hello)) =
  [MarkupMessage (js "message user-message") (js "<p>hello</p>");
   StreamingMessage (js "Cloudflare") (js "AB")].
Proof.
  refine (proj1 (@clean_cycle_display literal_numbers (Selected (js "cf"))
                   (ok_response [abc_stream])
                   {| chunks := [abc_stream]; ending := EndOfData |}
                   (js "AB") typed_hello _ _ _ _ _)).
  - vm_compute. discriminate.
  - reflexivity.
  - reflexivity.
  - reflexivity.
  - vm_compute. reflexivity.
Defined.

(** ** Sessions *)

Section SessionFacts.
Context `{NumberSemantics}.

Lemma replies_follow_app (h : list turn) (u : turn) (rest : list turn) :
  turn_role u = user ->
  replies_follow_questions h ->
  replies_follow_questions (u :: rest) ->
  replies_follow_questions (h ++ u :: rest).
Proof.
  intros Hu. induction h as [|a [|b h] IH]; intros Hh Hr.
  - exact Hr.
  - cbn [app replies_follow_questions]. split; [intros _; exact Hu | exact Hr].
  - cbn [app]. cbn [replies_follow_questions] in Hh. destruct Hh as [Hab Hh].
    change (replies_follow_questions (a :: (b :: h ++ u :: rest))).
    split; [exact Hab | apply IH; assumption].
Qed.

(** What an accepted or refused submission does to the history: nothing,
    or the trimmed user turn, followed or not by a reply that is not
    empty. *)
Lemma sendMessage_history_cases (w : selector) (net : fetch_outcome) (st : state) :
  chatHistory (fst (sendMessage w net st)) = chatHistory st \/
  exists asked,
    turn_role asked = user /\ recorded_turn asked /\
    (chatHistory (fst (sendMessage w net st)) = chatHistory st ++ [asked] \/
     exists reply,
       turn_role reply = assistant /\ recorded_turn reply /\
       chatHistory (fst (sendMessage w net st)) = chatHistory st ++ [asked; reply]).
Proof.
  unfold sendMessage.
  destruct (jstring_eqb (trim (userInput_value st)) []) eqn:Em;
    [left; reflexivity|].
  destruct (isProcessing st); [left; reflexivity|]. cbn [orb].
  apply jstring_eqb_neq in Em. right.
  exists {| turn_role := user; content := trim (userInput_value st) |}.
  split; [reflexivity|].
  split; [split; [exact Em | intros _; apply trim_idempotent]|].
  set (st1 := start_cycle _ st).
  pose proof (try_block_history_cases (getAgent w) net st1) as Hc.
  destruct (try_block (getAgent w) net st1) as [[st' exn] sent].
  cbn [fst snd] in *.
  destruct Hc as [Hsame | [text [Ht [Hexn Hpush]]]].
  - left. destruct exn; cbn [finally_block catch_block chatHistory];
      rewrite Hsame; reflexivity.
  - right. exists {| turn_role := assistant; content := text |}.
    split; [reflexivity|].
    split; [split; [exact Ht | discriminate]|].
    subst exn. cbn [finally_block chatHistory]. rewrite Hpush.
    unfold st1. cbn [start_cycle chatHistory]. rewrite <- app_assoc. reflexivity.
Qed.

Lemma sendMessage_keeps_shape (w : selector) (net : fetch_outcome) (st : state) :
  Forall recorded_turn (chatHistory st) ->
  replies_follow_questions (chatHistory st) ->
  Forall recorded_turn (chatHistory (fst (sendMessage w net st))) /\
  replies_follow_questions (chatHistory (fst (sendMessage w net st))).
Proof.
  intros Hf Hr.
  destruct (sendMessage_history_cases w net st)
    as [-> | [asked [Hu [Ha [-> | [reply [Hrole [Hrep ->]]]]]]]].
  - split; assumption.
  - split.
    + apply Forall_app. split; [exact Hf | constructor; [exact Ha | constructor]].
    + apply replies_follow_app; [exact Hu | exact Hr | exact I].
  - split.
    + apply Forall_app. split; [exact Hf|].
      constructor; [exact Ha | constructor; [exact Hrep | constructor]].
    + apply replies_follow_app; [exact Hu | exact Hr |].
      split; [|exact I]. rewrite Hu. discriminate.
Qed.

Lemma session_keeps_shape (acts : list interaction) (st : state) :
  Forall recorded_turn (chatHistory st) ->
  replies_follow_questions (chatHistory st) ->
  Forall recorded_turn (chatHistory (snd (session acts st))) /\
  replies_follow_questions (chatHistory (snd (session acts st))).
Proof.
  revert st. induction acts as [|i acts IH]; intros st Hf Hr; [split; assumption|].
  cbn [session]. unfold submit.
  pose proof (sendMessage_keeps_shape (selected i) (net i) (with_input (typed i) st) Hf Hr)
    as [Hf' Hr'].
  destruct (sendMessage (selected i) (net i) (with_input (typed i) st)) as [st' sent].
  cbn [fst] in *. specialize (IH st' Hf' Hr').
  destruct (session acts st') as [reqs final]. exact IH.
Qed.

(** After a request, the history begins with what the request carried. *)
Lemma sendMessage_extends_request (w : selector) (net : fetch_outcome)
  (st : state) (r : request) :
  snd (sendMessage w net st) = Some r ->
  begins (messages r) (chatHistory (fst (sendMessage w net st))).
Proof.
  unfold sendMessage.
  destruct (jstring_eqb _ [] || isProcessing st); [discriminate|].
  set (st1 := start_cycle _ st).
  pose proof (try_block_request (getAgent w) net st1) as Hr.
  pose proof (try_block_history (getAgent w) net st1) as [added Ha].
  destruct (try_block (getAgent w) net st1) as [[st' exn] sent].
  cbn [fst snd] in *. intros [= <-]. rewrite Hr. cbn [messages].
  exists added. destruct exn; cbn [finally_block catch_block chatHistory]; exact Ha.
Qed.

Lemma session_cumulative (acts : list interaction) (st : state) :
  cumulative (map messages (fst (session acts st))).
Proof.
  revert st. induction acts as [|i acts IH]; intros st; [exact I|].
  cbn [session]. unfold submit.
  pose proof (sendMessage_extends_request (selected i) (net i)
                (with_input (typed i) st)) as Hext.
  destruct (sendMessage (selected i) (net i) (with_input (typed i) st)) as [st' sent].
  cbn [fst snd] in *.
  pose proof (session_prefix acts st') as [_ Hreqs].
  specialize (IH st').
  destruct (session acts st') as [reqs final]. cbn [fst] in *.
  destruct sent as [r|]; [|exact IH].
  cbn [map cumulative]. split; [|exact IH].
  destruct (Hext r eq_refl) as [extra He].
  apply Forall_map. eapply Forall_impl; [|exact Hreqs].
  intros q [added Hq]. exists (extra ++ added).
  rewrite Hq, He, app_assoc. reflexivity.
Qed.

End SessionFacts.

(** X15. Through any session the history keeps its shape: no turn is
    empty, every user turn is the trimmed input (trimming it again changes
    nothing), and no two assistant turns stand next to each other. *)
Theorem history_keeps_shape `{NumberSemantics} (acts : list interaction) :
  Forall recorded_turn (chatHistory (snd (session acts initial_state))) /\
  replies_follow_questions (chatHistory (snd (session acts initial_state))).
Proof.
  apply session_keeps_shape.
  - constructor; [|constructor]. split; [discriminate | discriminate].
  - exact I.
Qed.

(** X16. The requests of a session are cumulative: the [messages] of every
    request begin with the [messages] of every request sent before it, so
    the service is sent again, in order and unchanged, all it was sent
    before. This holds from any page state. *)
Theorem requests_are_cumulative `{NumberSemantics}
  (acts : list interaction) (st : state) :
  cumulative (map messages (fst (session acts st))).
Proof. apply session_cumulative. Qed.

(** ** Blocks given line by line *)

Section FieldFacts.

(** Splitting gives back a line that a newline ends. *)
Lemma split_lines_line (l t : jstring) :
  single_line l -> split_lines (l ++ LF :: t) = l :: split_lines t.
Proof.
  induction 1 as [|c l [Hc _] _ IH]; cbn [app split_lines].
  - rewrite N.eqb_refl. reflexivity.
  - apply N.eqb_neq in Hc. rewrite Hc, IH. reflexivity.
Qed.

Lemma split_join_lines (ls : list jstring) :
  ls <> [] -> Forall single_line ls -> split_lines (join_lines ls) = ls.
Proof.
  intros Hne Hl. induction Hl as [|l ls Hs Hl IH]; [contradiction|].
  destruct ls as [|l2 ls]; cbn [join_lines].
  - apply single_line_split, Hs.
  - rewrite (split_lines_line _ _ Hs). f_equal. apply IH. discriminate.
Qed.

Lemma join_lines_no_cr (ls : list jstring) :
  Forall single_line ls -> no_cr (join_lines ls).
Proof.
  induction 1 as [|l ls Hs Hl IH]; [constructor|].
  destruct ls as [|l2 ls]; cbn [join_lines].
  - apply single_line_no_cr, Hs.
  - apply Forall_app. split; [apply single_line_no_cr, Hs|].
    constructor; [discriminate | exact IH].
Qed.

Lemma line_then_text_no_blank (l t : jstring) :
  single_line l ->
  match t with [] => True | c :: _ => c <> LF end ->
  indexOf t blank_line = None ->
  indexOf (l ++ LF :: t) blank_line = None.
Proof.
  intros Hl Ht Hn. induction Hl as [|c l [Hc _] _ IH]; cbn [app].
  - rewrite indexOf_cons, Hn. cbn [startsWith blank_line].
    rewrite N.eqb_refl. destruct t as [|d t]; [reflexivity|].
    cbn [startsWith andb]. apply N.eqb_neq in Ht.
    rewrite (N.eqb_sym LF d), Ht. reflexivity.
  - rewrite indexOf_cons, IH. cbn [startsWith blank_line].
    apply N.eqb_neq in Hc. rewrite (N.eqb_sym LF c), Hc. reflexivity.
Qed.

Lemma join_lines_no_blank (ls : list jstring) :
  Forall (fun l => l <> [] /\ single_line l) ls ->
  indexOf (join_lines ls) blank_line = None /\
  match join_lines ls with [] => True | c :: _ => c <> LF end.
Proof.
  induction 1 as [|l ls [Hne Hs] Hl [IHn IHh]]; [split; [reflexivity | exact I]|].
  assert (Hhead : forall t, match l ++ t with [] => True | c :: _ => c <> LF end).
  { intros t. destruct Hs as [|c l [Hc _] _]; [contradiction | exact Hc]. }
  destruct ls as [|l2 ls]; cbn [join_lines].
  - split; [apply single_line_no_blank, Hs|].
    specialize (Hhead []). rewrite app_nil_r in Hhead. exact Hhead.
  - split; [apply line_then_text_no_blank; assumption | apply Hhead].
Qed.

End FieldFacts.

(** X17. Fields other than [data:] do not reach the payload. For a block
    given as its lines (none empty, none with a line break inside), the
    event is made of the [data:] lines alone: the block yields the payloads
    of those lines joined by newlines, the same event as the block with
    every other line (comments, [event:], [id:], [retry:]) left out, and no
    event when there is no [data:] line. *)
Theorem other_fields_ignored (ls : list jstring) :
  ls <> [] ->
  Forall (fun l => l <> [] /\ single_line l) ls ->
  events (consumeSseEvents (join_lines ls ++ blank_line)) =
    match filter is_data_line ls with
    | [] => []
    | data_lines => [join_lines (map line_payload data_lines)]
    end /\
  (filter is_data_line ls <> [] ->
   events (consumeSseEvents (join_lines ls ++ blank_line)) =
   events (consumeSseEvents (join_lines (filter is_data_line ls) ++ blank_line))).
Proof.
  intros Hne Hl.
  assert (Hgen : forall ks,
            ks <> [] -> Forall (fun l => l <> [] /\ single_line l) ks ->
            events (consumeSseEvents (join_lines ks ++ blank_line)) =
            match filter is_data_line ks with
            | [] => []
            | data_lines => [join_lines (map line_payload data_lines)]
            end).
  { intros ks Hk Hks.
    assert (Hsl : Forall single_line ks).
    { eapply Forall_impl; [|exact Hks]. intros l [_ Hs]. exact Hs. }
    pose proof (strip_cr_fixed _ (join_lines_no_cr _ Hsl)) as Hs.
    destruct (consume_terminated (join_lines ks)) as [Hev _].
    { rewrite Hs. apply join_lines_no_blank, Hks. }
    rewrite Hev, Hs, block_events_lines, (split_join_lines _ Hk Hsl).
    reflexivity. }
  split; [apply Hgen; assumption|].
  intros Hd. rewrite (Hgen ls Hne Hl), (Hgen (filter is_data_line ls) Hd).
  - assert (Hff : filter is_data_line (filter is_data_line ls) = filter is_data_line ls).
    { clear. induction ls as [|l ls IH]; [reflexivity|].
      cbn [filter]. destruct (is_data_line l) eqn:E; [|exact IH].
      cbn [filter]. rewrite E, IH. reflexivity. }
    rewrite Hff. reflexivity.
  - apply Forall_forall. intros l Hin. apply filter_In in Hin as [Hin _].
    rewrite Forall_forall in Hl. apply Hl, Hin.
Qed.

Lemma other_fields_ignored_witness :
  events (consumeSseEvents
            (join_lines [js ": ping"; js "event: delta"; js "data: a";
                         js "id: 7"; js "data: b"] ++ blank_line)) =
  [js "a" ++ [LF] ++ js "b"].
Proof.
  refine (proj1 (other_fields_ignored
                   [js ": ping"; js "event: delta"; js "data: a";
                    js "id: 7"; js "data: b"] _ _)).
  - discriminate.
  - repeat constructor; discriminate.
Defined.
